(** * FabricDistort: four-point perspective warp of a fabric.js image

    A shallow embedding of [src/photo.js] (the [fabric.Photo] class) and of
    the [fabric.Image.filters.Perspective] WebGL filter of [src/main.js],
    followed by the properties of the control-point geometry.

    The Photo is embedded from the current [photo.js]; an earlier revision
    of that file, whose wrapper recomputed the geometry before the handler
    ran, is not modelled.

    Conventions of the embedding.
    - JavaScript numbers are modelled by the canonical rationals [Qc], with
      exact arithmetic.  Rounding, [NaN] and the infinities of IEEE doubles
      are outside the model, and so is division by zero, which the
      statements exclude by hypothesis or do not depend on.  The properties
      are therefore stated the way the code computes, one operation at a
      time: where the code multiplies and later divides, or scales twice,
      the statement says so, and does not cancel or re-associate; what is
      used of the arithmetic is the order (subtraction and division by a
      positive number are monotone, [x - x = 0], [x - 0 = x], [x * 1 = x],
      [x / x = 1]), which rounding keeps.  The coordinates of the examples
      are small integers, on which double arithmetic is exact as well.
    - A coordinate list ([perspectiveCoords]) is a JavaScript array of
      two-element arrays that is shared by reference between the Photo, its
      filter and the control closures.  It lives in a [store], addressed by
      a location; objects hold the location.  The entries of a coordinate
      list are never shared with one another (the list is built by the array
      literal of [getInitialPerspective]), so an entry is stored as a pair.
    - Everything that belongs to fabric.js, to verb-nurbs-web or to the
      browser is collected in the class [Runtime]; the few pure helpers of
      [fabric.util] that the geometry depends on are written out in the
      module [FabricUtil]. *)

From Stdlib Require Import QArith Qcanon Qround Lqa.
From stdpp Require Import prelude gmap strings pretty numbers.

Local Open Scope Qc_scope.

(* ================================================================= *)
(** ** Numbers *)

(** [Math.abs]. *)
Definition Math_abs (v : Qc) : Qc := if decide (v < 0) then - v else v.

(** The JavaScript idiom [v || 0] on a value that is a number or
    [undefined]: a falsy value ([undefined], [0]) is replaced by [0]. *)
Definition or_zero (v : option Qc) : Qc :=
  match v with
  | Some n => if decide (n = 0) then 0 else n
  | None => 0
  end.

Arguments Math_abs : simpl never.
Arguments or_zero : simpl never.

(** [Math.min] of two numbers. *)
Definition Math_min (a b : Qc) : Qc := if decide (b < a) then b else a.

(** [Math.round]: the nearest integer, halves rounded up. *)
Definition Math_round (v : Qc) : Z := Qfloor (this (v + 1 / 2)).

(** [v || d] on a value that is a number or [undefined]. *)
Definition or_else (v : option Qc) (d : Qc) : Qc :=
  match v with
  | Some n => if decide (n = 0) then d else n
  | None => d
  end.

(** A coordinate entry [[x, y]]. *)
Definition point : Type := Qc * Qc.

Definition px (p : point) : Qc := p.1.
Definition py (p : point) : Qc := p.2.

(* ================================================================= *)
(** ** The helpers of [fabric.util] used by the geometry *)

Module FabricUtil.

(** [fabric.util.array.find]: [undefined] on an empty array; otherwise the
    scan starts from the last element and walks down to index 0,
    replacing the running result whenever [condition(candidate, result)]
    holds. *)
Definition find {A : Type} (array : list A) (byProperty : A → Qc)
    (condition : Qc → Qc → bool) : option Qc :=
  match reverse array with
  | [] => None
  | last :: below =>
      Some (foldl (λ result a,
                     if condition (byProperty a) result
                     then byProperty a else result)
                  (byProperty last) below)
  end.

(** [fabric.util.array.min]: [condition] is [value1 < value2]. *)
Definition min {A : Type} (array : list A) (byProperty : A → Qc) : option Qc :=
  find array byProperty (λ value1 value2, bool_decide (value1 < value2)).

(** [fabric.util.array.max]: [condition] is [value1 >= value2]. *)
Definition max {A : Type} (array : list A) (byProperty : A → Qc) : option Qc :=
  find array byProperty (λ value1 value2, bool_decide (value2 <= value1)).

(** A 2D affine transform [[a, b, c, d, e, f]]. *)
Record Matrix : Type := mkMatrix {
  m0 : Qc; m1 : Qc; m2 : Qc; m3 : Qc; m4 : Qc; m5 : Qc
}.

(** [fabric.util.transformPoint(p, t, ignoreOffset)]. *)
Definition transformPoint (p : point) (t : Matrix) (ignoreOffset : bool) : point :=
  if ignoreOffset
  then (m0 t * px p + m2 t * py p, m1 t * px p + m3 t * py p)
  else (m0 t * px p + m2 t * py p + m4 t, m1 t * px p + m3 t * py p + m5 t).

(** [fabric.util.invertTransform(t)]. *)
Definition invertTransform (t : Matrix) : Matrix :=
  let a := 1 / (m0 t * m3 t - m1 t * m2 t) in
  let r := mkMatrix (a * m3 t) (- a * m1 t) (- a * m2 t) (a * m0 t) 0 0 in
  let o := transformPoint (m4 t, m5 t) r true in
  mkMatrix (m0 r) (m1 r) (m2 r) (m3 r) (- px o) (- py o).

End FabricUtil.

(* ================================================================= *)
(** ** The store of coordinate arrays, and outcomes *)

Definition loc : Type := positive.

Abbreviation store := (gmap loc (list point)).

(** Reading through a reference that may be [undefined]. *)
Definition deref (h : store) (r : option loc) : option (list point) :=
  r ≫= λ l, h !! l.

(** A thrown JavaScript error, identified by its name. *)
Inductive exn : Type := JsError (name : string).

Definition TypeError : exn := JsError "TypeError".

Inductive outcome (A : Type) : Type :=
| Done (a : A)
| Thrown (e : exn).
Arguments Done {A} a.
Arguments Thrown {A} e.

Global Instance exn_eq_dec : EqDecision exn.
Proof. solve_decision. Defined.
Global Instance outcome_eq_dec {A} `{EqDecision A} : EqDecision (outcome A).
Proof. solve_decision. Defined.

(** State-and-exception monad: the state reached when an error is thrown
    is kept, as the mutations made before a JavaScript [throw] are. *)
Definition M (S A : Type) : Type := S → outcome A * S.

Definition ret {S A} (a : A) : M S A := λ s, (Done a, s).
Definition throw {S A} (e : exn) : M S A := λ s, (Thrown e, s).
Definition bind {S A B} (m : M S A) (k : A → M S B) : M S B :=
  λ s, match m s with
       | (Done a, s') => k a s'
       | (Thrown e, s') => (Thrown e, s')
       end.
Definition get {S} : M S S := λ s, (Done s, s).
Definition put {S} (s : S) : M S unit := λ _, (Done tt, s).
Definition modify {S} (f : S → S) : M S unit := λ s, (Done tt, f s).

Notation "'do' x <- m ; k" := (bind m (λ x, k))
  (at level 10, x name, m at level 100, k at level 200, only parsing).
Notation "m ;; k" := (bind m (λ _, k))
  (at level 100, k at level 200, right associativity, only parsing).

(** Running a computation on one component of a larger state. *)
Definition zoom {S T A} (proj : T → S) (inj : S → T → T) (m : M S A) : M T A :=
  λ t, let '(r, s) := m (proj t) in (r, inj s t).

(* ================================================================= *)
(** ** The WebGL pipeline state and the runtime *)

Definition texture : Type := nat.
Definition program : Type := nat.

(** The tessellation object returned by verb: vertex positions, triangle
    index triples and one UV pair per vertex. *)
Record Mesh : Type := mkMesh {
  points : list (list Qc);
  faces : list (list N);
  uvs : list (list Qc)
}.

Global Instance Mesh_eq_dec : EqDecision Mesh.
Proof. solve_decision. Defined.

(** The calls that the filter issues on the WebGL context, recorded in
    program order (most recent call first). *)
Inductive GLCall : Type :=
| clearColor (r g b a : Qc)
| clear
| bindTexture (t : texture)
| texParameteri (pname value : string)
| useProgram (p : program)
| createBuffer (slot : string)
| bindBuffer (target slot : string)
| bufferData (target : string) (data : list Qc)
| bufferIndices (data : list N)
| enableVertexAttribArray (attribute : string)
| vertexAttribPointer (attribute : string) (size : nat)
| uniform1f (uniform : string) (v : Qc)
| viewport (x y w h : Qc)
| getExtension (name : string)
| drawElements (count : nat).

Global Instance GLCall_eq_dec : EqDecision GLCall.
Proof. solve_decision. Defined.

(** The [options] object handed to [applyTo] by the filter backend
    (fabric's pipeline state), with the WebGL context it carries. *)
Record Options : Type := mkOptions {
  webgl : bool;
  pass : nat;
  originalTexture : option texture;
  sourceTexture : texture;
  targetTexture : texture;
  sourceWidth : Qc;
  sourceHeight : Qc;
  destinationWidth : Qc;
  destinationHeight : Qc;
  canvas_width : Qc;            (* options.context.canvas.width *)
  canvas_height : Qc;           (* options.context.canvas.height *)
  vertexBuffers : gset string;  (* the gl[type + 'vertexBuffer'] slots in use *)
  context : list GLCall
}.

(** What the embedding takes from outside the repository: the global
    [fabric.devicePixelRatio], the two entry points of verb-nurbs-web, the
    methods inherited from [fabric.Image.filters.BaseFilter], and the
    pipeline state with which the installed filter backend calls
    [applyTo]; and, from the language, [Math.fround], the rounding to
    single precision that a [Float32Array] applies to its elements and that
    exact rationals do not determine.  Library calls may throw.  The device
    pixel ratio is positive: fabric falls back to 1 when the browser
    reports none. *)
Class Runtime : Type := {
  devicePixelRatio : Qc;
  devicePixelRatio_positive : 0 < devicePixelRatio;
  fround : Qc → Qc;
  Surface : Type;
  byCorners : list point → outcome Surface;
  tessellate : Surface → outcome Mesh;
  retrieveShader : M Options program;
  _setupFrameBuffer : Options → Options;
  _swapTextures : Options → Options;
  pipelineState : Options
}.

(** [new Uint16Array(indices)]: every index is reduced modulo 2^16. *)
Definition Uint16Array (indices : list N) : list N :=
  (λ i, i `mod` 65536)%N <$> indices.

(** [new Float32Array(data)]: every element is rounded to single
    precision. *)
Definition Float32Array `{Runtime} (data : list Qc) : list Qc :=
  fround <$> data.

(** lodash [flatten]: one level of nesting is removed. *)
Definition flatten {A : Type} (l : list (list A)) : list A := concat l.

(* ================================================================= *)
(** ** The Perspective filter ([fabric.Image.filters.Perspective]) *)

Module Perspective.

Record Bounds : Type := mkBounds {
  width : Qc; height : Qc; minX : Qc; maxX : Qc; minY : Qc; maxY : Qc
}.

Global Instance Bounds_eq_dec : EqDecision Bounds.
Proof. solve_decision. Defined.

Record t : Type := mk {
  pixelRatio : Qc;
  bounds : Bounds;
  hasRelativeCoordinates : bool;
  perspectiveCoords : option loc
}.

Global Instance t_eq_dec : EqDecision t.
Proof. solve_decision. Defined.

(** The options object of the constructor; an absent key is [None]. *)
Record Init : Type := mkInit {
  init_hasRelativeCoordinates : option bool;
  init_pixelRatio : option Qc;
  init_perspectiveCoords : option loc
}.

(** A filter together with the store of coordinate arrays. *)
Definition State : Type := t * store.

Definition set_bounds (b : Bounds) (f : t) : t :=
  mk (pixelRatio f) b (hasRelativeCoordinates f) (perspectiveCoords f).

Section Methods.
Context `{Runtime}.

(** The class-field initialisers, run before the constructor body. *)
Definition fields : t :=
  mk devicePixelRatio (mkBounds 0 0 0 0 0 0) true None.

(** [BaseFilter.setOptions]: every key present in [options] is copied
    onto the filter. *)
Definition setOptions (options : Init) (f : t) : t :=
  mk (default (pixelRatio f) (init_pixelRatio options))
     (bounds f)
     (default (hasRelativeCoordinates f) (init_hasRelativeCoordinates options))
     (match init_perspectiveCoords options with
      | Some l => Some l
      | None => perspectiveCoords f
      end).

(** [applyPixelRatio(coords = this.perspectiveCoords)]: scales the
    entries of [coords] in place and returns [coords]. *)
Definition applyPixelRatio (coords : option loc) : M State loc :=
  λ '(this, h),
    let coords := match coords with Some c => Some c | None => perspectiveCoords this end in
    match coords, deref h coords with
    | Some c, Some entries =>
        (Done c,
         (this, <[c := (λ p, (px p * pixelRatio this, py p * pixelRatio this)) <$> entries]> h))
    | _, _ => (Thrown TypeError, (this, h))
    end.

(** [constructor(options)]. *)
Definition constructor (options : option Init) (h : store) : outcome t * store :=
  let this := fields in
  let this := match options with Some o => setOptions o this | None => this end in
  match applyPixelRatio None (this, h) with
  | (Done _, (this, h)) => (Done this, h)
  | (Thrown e, (_, h)) => (Thrown e, h)
  end.

(** [getPerspectiveBounds(coords = this.perspectiveCoords)].  The
    parameter is overwritten on the first line of the body. *)
Definition getPerspectiveBounds (coords : option loc) : M State Bounds :=
  λ '(this, h),
    let coords := match coords with Some c => Some c | None => perspectiveCoords this end in
    match deref h (perspectiveCoords this) with
    | None => (Thrown TypeError, (this, h))
    | Some entries =>
        let coords := (λ c, (px c, py c)) <$> entries in
        let b_minX := or_zero (FabricUtil.min coords px) in
        let b_minY := or_zero (FabricUtil.min coords py) in
        let b_maxX := or_zero (FabricUtil.max coords px) in
        let b_maxY := or_zero (FabricUtil.max coords py) in
        let b_width := Math_abs (b_maxX - b_minX) in
        let b_height := Math_abs (b_maxY - b_minY) in
        let b := mkBounds b_width b_height b_minX b_maxX b_minY b_maxY in
        (Done b, (set_bounds b this, h))
    end.

(** [calculateCoordsByCorners(coords = this.perspectiveCoords)]. *)
Definition calculateCoordsByCorners (coords : option loc) : M State unit :=
  λ '(this, h),
    let coords := match coords with Some c => Some c | None => perspectiveCoords this end in
    match coords, deref h coords with
    | Some c, Some entries =>
        (Done tt,
         (this, <[c := (λ p, (px p - minX (bounds this), py p - minY (bounds this))) <$> entries]> h))
    | _, _ => (Thrown TypeError, (this, h))
    end.

(** [generateSurface()].  The two arguments with which [applyToWebGL]
    calls it are not parameters of the method. *)
Definition generateSurface (_ignored : list Qc) : M State Mesh :=
  λ '(this, h),
    match deref h (perspectiveCoords this) with
    | None => (Thrown TypeError, (this, h))
    | Some corners =>
        match byCorners corners with
        | Done surface => (tessellate surface, (this, h))
        | Thrown e => (Thrown e, (this, h))
        end
    end.

(** *** Rendering *)

(** The filter, the store and the [options] object of one pass. *)
Definition RenderState : Type := State * Options.

Definition onFilter {A} (m : M State A) : M RenderState A :=
  zoom fst (λ s r, (s, r.2)) m.
Definition onOptions {A} (m : M Options A) : M RenderState A :=
  zoom snd (λ o r, (r.1, o)) m.

(** One call on [options.context]. *)
Definition gl (c : GLCall) : M Options unit :=
  modify (λ o,
    mkOptions (webgl o) (pass o) (originalTexture o) (sourceTexture o)
      (targetTexture o) (sourceWidth o) (sourceHeight o)
      (destinationWidth o) (destinationHeight o)
      (canvas_width o) (canvas_height o) (vertexBuffers o) (c :: context o)).

(** The four assignments that size the canvas and the destination. *)
Definition resize (w h : Qc) : M Options unit :=
  modify (λ o,
    mkOptions (webgl o) (pass o) (originalTexture o) (sourceTexture o)
      (targetTexture o) (sourceWidth o) (sourceHeight o)
      w h w h (vertexBuffers o) (context o)).

Definition keepBuffer (slot : string) : M Options unit :=
  modify (λ o,
    mkOptions (webgl o) (pass o) (originalTexture o) (sourceTexture o)
      (targetTexture o) (sourceWidth o) (sourceHeight o)
      (destinationWidth o) (destinationHeight o)
      (canvas_width o) (canvas_height o) ({[slot]} ∪ vertexBuffers o) (context o)).

(** [clear(gl)]. *)
Definition clear_ : M Options unit :=
  gl (clearColor 0 0 0 0) ;; gl clear.

(** [bindTexture(gl, options)]. *)
Definition bindTexture_ : M Options unit :=
  do o <- get;
  (match pass o, originalTexture o with
   | O, Some original => gl (bindTexture original)
   | _, _ => gl (bindTexture (sourceTexture o))
   end) ;;
  gl (texParameteri "TEXTURE_MAG_FILTER" "LINEAR") ;;
  gl (texParameteri "TEXTURE_MIN_FILTER" "LINEAR") ;;
  gl (texParameteri "TEXTURE_WRAP_S" "CLAMP_TO_EDGE") ;;
  gl (texParameteri "TEXTURE_WRAP_T" "CLAMP_TO_EDGE").

(** [indexBuffer(gl, data)]. *)
Definition indexBuffer (data : list N) : M Options unit :=
  gl (createBuffer "indexBuffer") ;;
  gl (bindBuffer "ELEMENT_ARRAY_BUFFER" "indexBuffer") ;;
  gl (bufferIndices data).

(** [sendAttributeData(gl, attributeLocations, data, type)]. *)
Definition sendAttributeData (data : list Qc) (type : string) : M Options unit :=
  do o <- get;
  (if decide (type +:+ "vertexBuffer" ∈ vertexBuffers o)
   then ret tt
   else gl (createBuffer (type +:+ "vertexBuffer")) ;;
        keepBuffer (type +:+ "vertexBuffer")) ;;
  gl (bindBuffer "ARRAY_BUFFER" (type +:+ "vertexBuffer")) ;;
  gl (enableVertexAttribArray type) ;;
  gl (vertexAttribPointer type 2) ;;
  gl (bufferData "ARRAY_BUFFER" data).

(** [applyToWebGL(options)]. *)
Definition applyToWebGL : M RenderState unit :=
  do shader <- onOptions retrieveShader;
  do o <- onOptions get;
  do tess <- onFilter (generateSurface [sourceWidth o; sourceHeight o]);
  let indices := Uint16Array (flatten (faces tess)) in
  onOptions (
    clear_ ;;
    bindTexture_ ;;
    gl (useProgram shader) ;;
    indexBuffer indices ;;
    sendAttributeData (Float32Array (flatten (points tess))) "aPosition" ;;
    sendAttributeData (Float32Array (flatten (uvs tess))) "aUvs" ;;
    do o <- get;
    gl (uniform1f "uStepW" (1 / canvas_width o)) ;;
    gl (uniform1f "uStepH" (1 / canvas_height o)) ;;
    (* sendUniformData: inherited, intentionally blank in BaseFilter *)
    gl (viewport 0 0 (destinationWidth o) (destinationHeight o)) ;;
    gl (getExtension "OES_element_index_uint") ;;
    gl (drawElements (length indices))).

(** [applyTo(options)]. *)
Definition applyTo : M RenderState unit :=
  do o <- onOptions get;
  if webgl o then
    do b <- onFilter (getPerspectiveBounds None);
    onOptions (resize (width b) (height b)) ;;
    do this <- onFilter get;
    (if hasRelativeCoordinates this.1
     then onFilter (calculateCoordsByCorners None)
     else ret tt) ;;
    onOptions (modify _setupFrameBuffer) ;;
    applyToWebGL ;;
    onOptions (modify _swapTextures)
  else ret tt.

End Methods.
End Perspective.

(* ================================================================= *)
(** ** The 2D drawing context *)

(** The calls issued on a [CanvasRenderingContext2D], most recent first.
    [ctx_rotate] takes the angle in degrees (the source converts it with
    [fabric.util.degreesToRadians]); [ctx_arc] is the full circle
    [arc(x, y, radius, 0, 2 * Math.PI)]. *)
Inductive CanvasCall : Type :=
| ctx_save
| ctx_restore
| ctx_translate (x y : Qc)
| ctx_rotate (degrees : Qc)
| ctx_beginPath
| ctx_closePath
| ctx_moveTo (x y : Qc)
| ctx_lineTo (x y : Qc)
| ctx_strokeStyle (colour : string)
| ctx_fillStyle (colour : string)
| ctx_stroke
| ctx_fill
| ctx_arc (x y radius : Qc)
| ctx_drawImage (x y w h : Qc).

Global Instance CanvasCall_eq_dec : EqDecision CanvasCall.
Proof. solve_decision. Defined.

Definition draw (c : CanvasCall) : M (list CanvasCall) unit := modify (cons c).

(** An image or canvas element; a canvas has no [naturalWidth]. *)
Record Element : Type := mkElement {
  naturalWidth : option Qc;
  element_width : Qc;
  naturalHeight : option Qc;
  element_height : Qc
}.

(* ================================================================= *)
(** ** The Photo object ([fabric.Photo]) *)

Module Photo.

(** What a control does when dragged: fabric's own handlers are opaque;
    a perspective control carries the two values captured by its
    closures, [anchorIndex] and the [index] of its coordinate entry. *)
Inductive Action : Type :=
| HostAction
| PerspectiveAction (anchorIndex : Z) (index : nat).

Record Control : Type := mkControl {
  name : string;
  x : Qc;
  y : Qc;
  offsetX : Qc;
  offsetY : Qc;
  actionName : string;
  action : Action
}.

Record Dimensions : Type := mkDimensions {
  left : Qc; top : Qc; dim_width : Qc; dim_height : Qc
}.

Global Instance Action_eq_dec : EqDecision Action.
Proof. solve_decision. Defined.
Global Instance Control_eq_dec : EqDecision Control.
Proof. solve_decision. Defined.
Global Instance Dimensions_eq_dec : EqDecision Dimensions.
Proof. solve_decision. Defined.

Record t : Type := mk {
  width : Qc;
  height : Qc;
  scaleX : Qc;
  scaleY : Qc;
  layout : option string;
  perspectiveMode : bool;
  pathOffset : option point;
  perspectiveCoords : option loc;
  filters : list Perspective.t;
  controls : gmap string Control;
  canvas : option nat          (* render requests queued on this.canvas *)
}.

Global Instance t_eq_dec : EqDecision t.
Proof. solve_decision. Defined.

Definition State : Type := t * store.

(** The arguments with which fabric calls an action handler. *)
Record EventData : Type := mkEventData { clientX : Qc; clientY : Qc }.
Record Transform : Type := mkTransform { corner : string }.

(** The part of [fabric.Image] that the Photo inherits and calls, and the
    action handlers of fabric's own controls, which are fabric's code. *)
Class Host : Type := {
  calcTransformMatrix : t → FabricUtil.Matrix;
  getScaledWidth : t → Qc;
  getScaledHeight : t → Qc;
  originalControls : gmap string Control;
  hostActionHandler :
    Control → option EventData → option Transform → Qc → Qc →
    t * store → outcome (option bool) * (t * store)
}.

Definition set_size (d : Dimensions) (p : t) : t :=
  mk (dim_width d) (dim_height d) (scaleX p) (scaleY p) (layout p)
     (perspectiveMode p) (Some (left d, top d)) (perspectiveCoords p)
     (filters p) (controls p) (canvas p).
Definition set_perspectiveCoords (l : loc) (p : t) : t :=
  mk (width p) (height p) (scaleX p) (scaleY p) (layout p)
     (perspectiveMode p) (pathOffset p) (Some l)
     (filters p) (controls p) (canvas p).
Definition set_filters (fs : list Perspective.t) (p : t) : t :=
  mk (width p) (height p) (scaleX p) (scaleY p) (layout p)
     (perspectiveMode p) (pathOffset p) (perspectiveCoords p)
     fs (controls p) (canvas p).
Definition set_mode (mode : bool) (p : t) : t :=
  mk (width p) (height p) (scaleX p) (scaleY p) (Some "fit")
     mode (pathOffset p) (perspectiveCoords p)
     (filters p) (controls p) (canvas p).
Definition set_controls (cs : gmap string Control) (p : t) : t :=
  mk (width p) (height p) (scaleX p) (scaleY p) (layout p)
     (perspectiveMode p) (pathOffset p) (perspectiveCoords p)
     (filters p) cs (canvas p).
Definition set_canvas (c : option nat) (p : t) : t :=
  mk (width p) (height p) (scaleX p) (scaleY p) (layout p)
     (perspectiveMode p) (pathOffset p) (perspectiveCoords p)
     (filters p) (controls p) c.

Section Methods.
Context `{Runtime} `{Host}.

Definition onPhoto (f : t → t) : M State unit := modify (λ s, (f s.1, s.2)).

(** [_calcDimensions()]. *)
Definition _calcDimensions : M State Dimensions :=
  λ '(this, h),
    match deref h (perspectiveCoords this) with
    | None => (Thrown TypeError, (this, h))
    | Some entries =>
        let coords :=
          (λ c, (px c / devicePixelRatio, py c / devicePixelRatio)) <$> entries in
        let minX := or_zero (FabricUtil.min coords px) in
        let minY := or_zero (FabricUtil.min coords py) in
        let maxX := or_zero (FabricUtil.max coords px) in
        let maxY := or_zero (FabricUtil.max coords py) in
        let width := Math_abs (maxX - minX) in
        let height := Math_abs (maxY - minY) in
        (Done (mkDimensions minX minY width height), (this, h))
    end.

(** [_setPositionDimensions(options)]. *)
Definition _setPositionDimensions : M State Dimensions :=
  do d <- _calcDimensions;
  onPhoto (set_size d) ;;
  ret d.

(** [_applyPointsOffset()].  With an empty coordinate list the loop
    body, and with it the read of [this.pathOffset], never runs. *)
Definition _applyPointsOffset : M State unit :=
  λ '(this, h),
    match perspectiveCoords this, deref h (perspectiveCoords this) with
    | Some c, Some entries =>
        match entries, pathOffset this with
        | [], _ => (Done tt, (this, h))
        | _ :: _, None => (Thrown TypeError, (this, h))
        | _ :: _, Some offset =>
            (Done tt,
             (this, <[c := (λ coord, (px coord - px offset, py coord - py offset)) <$> entries]> h))
        end
    | _, _ => (Thrown TypeError, (this, h))
    end.

(** [_resetSizeAndPosition = (index, apply = true) => ...]. *)
Definition _resetSizeAndPosition (index : option Z) (apply : option bool) : M State unit :=
  _setPositionDimensions ;;
  if default true apply then _applyPointsOffset else ret tt.

(** [applyFilters()], inherited from [fabric.Image]: the filter backend
    calls [applyTo] on every filter in turn, all with the same
    pipeline-state object. *)
Definition applyFilterAt (i : nat) : M (list Perspective.t * store * Options) unit :=
  λ '(fs, h, o),
    match fs !! i with
    | None => (Done tt, (fs, h, o))
    | Some f =>
        let '(r, (f', h', o')) := Perspective.applyTo (f, h, o) in
        (r, (<[i := f']> fs, h', o'))
    end.

Definition applyFilters : M State unit :=
  λ '(this, h),
    let '(r, (fs, h', _)) :=
      foldr (λ i rest, applyFilterAt i ;; rest) (ret tt)
            (seq 0 (length (filters this))) (filters this, h, pipelineState) in
    (r, (set_filters fs this, h')).

(** [getInitialPerspective()]. *)
Definition getInitialPerspective : M State loc :=
  do s <- get;
  let w := getScaledWidth s.1 in
  let h := getScaledHeight s.1 in
  let perspectiveCoords := fresh (dom s.2) in
  put (set_perspectiveCoords perspectiveCoords s.1,
       <[perspectiveCoords := [(0, 0); (w, 0); (w, h); (0, h)]]> s.2) ;;
  do perspectiveFilter <-
    zoom snd (λ h' s', (s'.1, h'))
      (Perspective.constructor
         (Some (Perspective.mkInit (Some false) (Some devicePixelRatio)
                                   (Some perspectiveCoords))));
  onPhoto (λ this, set_filters (filters this ++ [perspectiveFilter]) this) ;;
  applyFilters ;;
  ret perspectiveCoords.

(** The controls built by the [reduce] of [togglePerspective]: one per
    coordinate entry, keyed [prs1], [prs2], ... *)
Definition perspectiveControl (lastControl : Z) (index : nat) : Control :=
  let anchorIndex := if decide (0 < index)%nat then (Z.of_nat index - 1)%Z else lastControl in
  mkControl ("prs" +:+ pretty (index + 1)%nat) (- (1 / 2)) (- (1 / 2)) 0 0
            "perspective-coords" (PerspectiveAction anchorIndex index).

Definition perspectiveControls (n : nat) : gmap string Control :=
  let lastControl := (Z.of_nat n - 1)%Z in
  foldl (λ acc index,
           <[name (perspectiveControl lastControl index) :=
               perspectiveControl lastControl index]> acc)
        ∅ (seq 0 n).

(** [this.canvas.requestRenderAll()]. *)
Definition requestRenderAll : M State unit :=
  λ '(this, h),
    match canvas this with
    | Some n => (Done tt, (set_canvas (Some (S n)) this, h))
    | None => (Thrown TypeError, (this, h))
    end.

(** [togglePerspective(mode = true)]. *)
Definition togglePerspective (mode : option bool) : M State unit :=
  let mode := default true mode in
  onPhoto (set_mode mode) ;;
  (if mode then
     do s <- get;
     match deref s.2 (perspectiveCoords s.1) with
     | None => throw TypeError
     | Some entries => onPhoto (set_controls (perspectiveControls (length entries)))
     end
   else onPhoto (set_controls originalControls)) ;;
  requestRenderAll.

(** The arrow function that [togglePerspective] passes to
    [_actionWrapper] for the control of entry [index]; [transform.target]
    is the Photo itself.  The closure holds [coord], the array that was
    entry [index] of the list when the controls were built, and writes
    into it: while the list has that entry, this is a write to entry
    [index]; once the list has lost it (the control has outlived its
    point), the write goes to an array that is no longer in any list and
    that nothing reads, and the list is left as it is. *)
Definition perspectiveAction (index : nat)
    (_ : EventData) (transform : Transform) (x y : Qc) : M State bool :=
  do s <- get;
  let target := s.1 in
  let mousePoint := (x, y) in
  let inverseMatrix := FabricUtil.invertTransform (calcTransformMatrix target) in
  let centerBasedLocalPoint := FabricUtil.transformPoint mousePoint inverseMatrix false in
  let topLeftBasedLocalPoint :=
    (px centerBasedLocalPoint + width target / 2,
     py centerBasedLocalPoint + height target / 2) in
  let coord :=
    (px topLeftBasedLocalPoint / scaleX target * devicePixelRatio,
     py topLeftBasedLocalPoint / scaleY target * devicePixelRatio) in
  put (target,
       match perspectiveCoords target with
       | Some c => alter (λ entries, <[index := coord]> entries) c s.2
       | None => s.2
       end) ;;
  _resetSizeAndPosition None None ;;
  (* target.setCoords(): refreshes fabric's cached corner geometry *)
  applyFilters ;;
  ret true.

(** [_actionWrapper(anchorIndex, fn)]; the returned function yields
    [undefined] ([None]) when it returns early. *)
Definition _actionWrapper (anchorIndex : Z)
    (fn : EventData → Transform → Qc → Qc → M State bool)
    (eventData : option EventData) (transform : option Transform)
    (x y : Qc) : M State (option bool) :=
  match transform, eventData with
  | Some transform, Some eventData =>
      do actionPerformed <- fn eventData transform x y;
      ret (Some actionPerformed)
  | _, _ => ret None
  end.

(** The [actionHandler] stored in a control: for a control built by
    [togglePerspective], the function that [_actionWrapper(anchorIndex, fn)]
    returned for the arrow function [fn] of its entry; for a control of
    fabric's, fabric's own handler. *)
Definition actionHandler (c : Control)
    (eventData : option EventData) (transform : option Transform)
    (x y : Qc) : M State (option bool) :=
  match action c with
  | PerspectiveAction anchorIndex index =>
      _actionWrapper anchorIndex (perspectiveAction index) eventData transform x y
  | HostAction => hostActionHandler c eventData transform x y
  end.

(** The handler that the constructor registers for ['image:loaded']. *)
Definition imageLoaded : M State unit :=
  do s <- get;
  (match perspectiveCoords s.1 with
   | None => getInitialPerspective ;; ret tt
   | Some _ => ret tt
   end) ;;
  requestRenderAll.

(** [_renderFill(ctx)], for [_element] the value of [this._element]. *)
Definition _renderFill (_element : option Element) (this : t) : M (list CanvasCall) unit :=
  match _element with
  | None => ret tt
  | Some elementToDraw =>
      draw ctx_save ;;
      let elWidth := or_else (naturalWidth elementToDraw) (element_width elementToDraw) in
      let elHeight := or_else (naturalHeight elementToDraw) (element_height elementToDraw) in
      let width := width this in
      let height := height this in
      draw (ctx_translate (- width / 2) (- height / 2)) ;;
      let scale := Math_min (width / elWidth) (height / elHeight) in
      let x := width / 2 - (elWidth / 2) * scale in
      let y := height / 2 - (elHeight / 2) * scale in
      draw (ctx_drawImage x y (elWidth * scale) (elHeight * scale)) ;;
      draw ctx_restore
  end.

(** The factors [scalarX] and [scalarY] of the control's [render] (its
    [positionHandler], which computes the same factors, is not embedded),
    for [zoom] the value of [fabricObject.canvas.getZoom()]. *)
Definition scalar (fabricObject : t) (zoom : Qc) : point :=
  (scaleX fabricObject * zoom / devicePixelRatio,
   scaleY fabricObject * zoom / devicePixelRatio).

(** The [render] of the control of entry [index], whose closure holds the
    entry [coord]; [angle] is [fabricObject.angle]. *)
Definition render (index : nat) (coord : point) (left top : Qc)
    (fabricObject : t) (h : store) (angle zoom : Qc) : M (list CanvasCall) unit :=
  match canvas fabricObject with
  | None => throw TypeError
  | Some _ =>
      let s := scalar fabricObject zoom in
      draw ctx_save ;;
      draw (ctx_translate left top) ;;
      draw (ctx_rotate angle) ;;
      draw ctx_beginPath ;;
      draw (ctx_moveTo 0 0) ;;
      draw (ctx_strokeStyle "green") ;;
      (match deref h (perspectiveCoords fabricObject) with
       | None => throw TypeError
       | Some entries =>
           match entries !! (index + 1)%nat with
           | Some next =>
               draw (ctx_strokeStyle "green") ;;
               draw (ctx_lineTo ((px next - px coord) * px s)
                                ((py next - py coord) * py s))
           | None =>
               match entries !! 0%nat with
               | Some first =>
                   draw (ctx_lineTo ((px first - px coord) * px s)
                                    ((py first - py coord) * py s))
               | None => throw TypeError
               end
           end
       end) ;;
      draw ctx_stroke ;;
      draw ctx_beginPath ;;
      draw (ctx_arc 0 0 (1 + 1 + 1 + 1)) ;;
      draw ctx_closePath ;;
      draw (ctx_fillStyle "green") ;;
      draw ctx_fill ;;
      draw ctx_stroke ;;
      draw ctx_restore
  end.

End Methods.
End Photo.

(* ================================================================= *)
(** ** Vocabulary of the properties *)

(** [m] is a least (greatest) element of [vs]. *)
Definition is_min (m : Qc) (vs : list Qc) : Prop := m ∈ vs ∧ ∀ v, v ∈ vs → m <= v.
Definition is_max (m : Qc) (vs : list Qc) : Prop := m ∈ vs ∧ ∀ v, v ∈ vs → v <= m.

(** The extent of a list of values on one axis: its least and greatest
    element, and [0], [0] for the empty list (the [|| 0] default). *)
Definition extent (vs : list Qc) (lo hi : Qc) : Prop :=
  match vs with
  | [] => lo = 0 ∧ hi = 0
  | _ :: _ => is_min lo vs ∧ is_max hi vs
  end.

(** [size] is the absolute difference of the extremes of [vs], and is
    not negative. *)
Definition spans (vs : list Qc) (size : Qc) : Prop :=
  ∃ lo hi, extent vs lo hi ∧ size = Math_abs (hi - lo) ∧ 0 <= size.

(** A filter that, when applied, leaves the coordinate list at [l] alone:
    it does not hold [l], or it does not use relative coordinates. *)
Definition spares (l : loc) (f : Perspective.t) : Prop :=
  Perspective.perspectiveCoords f = Some l →
  Perspective.hasRelativeCoordinates f = false.

(** The number of [createBuffer] calls for [slot] in a trace of WebGL
    calls. *)
Definition created (slot : string) (calls : list GLCall) : nat :=
  length (filter (λ c, c = createBuffer slot) calls).

(** The pipeline state after the calls [calls] (most recent first) were
    issued on its context and the buffer slots [slots] were filled. *)
Definition issue (calls : list GLCall) (slots : gset string) (o : Options) : Options :=
  mkOptions (webgl o) (pass o) (originalTexture o) (sourceTexture o)
    (targetTexture o) (sourceWidth o) (sourceHeight o)
    (destinationWidth o) (destinationHeight o)
    (canvas_width o) (canvas_height o) (slots ∪ vertexBuffers o) (calls ++ context o).

(** The texture that [bindTexture] binds. *)
Definition boundTexture (o : Options) : texture :=
  match pass o, originalTexture o with
  | O, Some original => original
  | _, _ => sourceTexture o
  end.

(** Twice the signed area of the triangle [a b c]. *)
Definition cross (a b c : point) : Qc :=
  (px b - px a) * (py c - py a) - (py b - py a) * (px c - px a).

(** All points of [cs] lie on one line through the first two. *)
Definition collinear (cs : list point) : bool :=
  match cs with
  | a :: b :: rest => forallb (λ c, bool_decide (cross a b c = 0)) rest
  | _ => true
  end.

(** Translation and scaling of a coordinate list. *)
Definition translate (dx dy : Qc) (cs : list point) : list point :=
  (λ p, (px p - dx, py p - dy)) <$> cs.
Definition scale (r : Qc) (cs : list point) : list point :=
  (λ p, (px p * r, py p * r)) <$> cs.

(** The names under which the error kinds of the specification would
    surface. *)
Definition DegenerateGeometry : exn := JsError "DegenerateGeometry".
Definition InvalidControlPoint : exn := JsError "InvalidControlPoint".
Definition RenderBackendUnavailable : exn := JsError "RenderBackendUnavailable".

(* ================================================================= *)
(** ** A runtime for evaluating the code on concrete inputs *)

(** Numerals. *)
Definition num (z : Z) : Qc := Qc_of_Z z.

(** A stand-in for verb that accepts every corner list and returns the
    two-triangle mesh spanned by the corners it was given. *)
Definition quadMesh (corners : list point) : Mesh :=
  mkMesh ((λ p, [px p; py p]) <$> corners)
         [[0; 1; 2]; [0; 2; 3]]%N
         [[0; 0]; [1; 0]; [1; 1]; [0; 1]].

Definition examplePipeline (useWebgl : bool) : Options :=
  mkOptions useWebgl 0%nat None 1%nat 2%nat (num 200) (num 100) (num 200) (num 100)
            (num 200) (num 100) ∅ [].

Definition positive_ratio (ratio : positive) : 0 < num (Z.pos ratio) :=
  eq_refl.

(** The numbers of the examples are integers of small size, which single
    precision represents exactly: [fround] is the identity on them. *)
Definition exampleRuntime (ratio : positive) (useWebgl : bool) : Runtime :=
  {| devicePixelRatio := num (Z.pos ratio);
     devicePixelRatio_positive := positive_ratio ratio;
     fround := λ v, v;
     Surface := list point;
     byCorners := λ corners, Done corners;
     tessellate := λ surface, Done (quadMesh surface);
     retrieveShader := ret 7%nat;
     _setupFrameBuffer := λ o, o;
     _swapTextures := λ o, o;
     pipelineState := examplePipeline useWebgl |}.

(** A display with one device pixel per CSS pixel, and a high-density one. *)
Definition standardDisplay : Runtime := exampleRuntime 1 true.
Definition retinaDisplay : Runtime := exampleRuntime 2 true.
(** A runtime whose filter backend does not use WebGL. *)
Definition canvas2dBackend : Runtime := exampleRuntime 1 false.

(** A runtime in which the shader program cannot be compiled: fabric's
    [createProgram] throws a plain [Error]. *)
Definition failedCompilation : Runtime :=
  {| devicePixelRatio := 1;
     devicePixelRatio_positive := eq_refl;
     fround := λ v, v;
     Surface := list point;
     byCorners := λ corners, Done corners;
     tessellate := λ surface, Done (quadMesh surface);
     retrieveShader := throw (JsError "Error");
     _setupFrameBuffer := λ o, o;
     _swapTextures := λ o, o;
     pipelineState := examplePipeline true |}.

(** A runtime whose surface library rejects every corner list. *)
Definition rejectingLibrary : Runtime :=
  {| devicePixelRatio := 1;
     devicePixelRatio_positive := eq_refl;
     fround := λ v, v;
     Surface := list point;
     byCorners := λ _, Thrown (JsError "Error");
     tessellate := λ surface, Done (quadMesh surface);
     retrieveShader := ret 7%nat;
     _setupFrameBuffer := λ o, o;
     _swapTextures := λ o, o;
     pipelineState := examplePipeline true |}.

Definition identityMatrix : FabricUtil.Matrix :=
  FabricUtil.mkMatrix 1 0 0 1 0 0.

(** An unrotated, unscaled Photo whose centre is the canvas origin.  It has
    no controls of fabric's, so that their handler is never called. *)
Definition exampleHost : Photo.Host :=
  {| Photo.calcTransformMatrix := λ _, identityMatrix;
     Photo.getScaledWidth := λ p, Photo.width p * Photo.scaleX p;
     Photo.getScaledHeight := λ p, Photo.height p * Photo.scaleY p;
     Photo.originalControls := ∅;
     Photo.hostActionHandler := λ _ _ _ _ _, ret None |}.

Definition examplePhoto (w h : Qc) (coords : option loc) : Photo.t :=
  Photo.mk w h 1 1 None false None coords [] ∅ (Some 0%nat).

Definition exampleFilter (relative : bool) (coords : option loc) : Perspective.t :=
  Perspective.mk 1 (Perspective.mkBounds 0 0 0 0 0 0) relative coords.

(** The quadrilateral of the 200 x 100 image after corner 1 was dragged
    from (200, 0) to (220, -10), in units of a device pixel ratio [r]. *)
Definition draggedQuad (r : Qc) : list point :=
  scale r [(0, 0); (num 220, num (-10)); (num 200, num 100); (0, num 100)].

(** Four corners on the diagonal line [y = x]. *)
Definition diagonalCorners : list point :=
  [(0, 0); (1, 1); (num 2, num 2); (num 3, num 3)].

(** The Photo of the 200 x 100 image holding [draggedQuad r] at location 1. *)
Definition draggedPhoto (r : Qc) : Photo.State :=
  (examplePhoto (num 200) (num 100) (Some 1%positive),
   {[ 1%positive := draggedQuad r ]}).

Definition exampleEvent : Photo.EventData := Photo.mkEventData 0 0.
Definition exampleTransform : Photo.Transform := Photo.mkTransform "prs1".

(* ================================================================= *)
(** ** The page ([main.js]) *)

Module App.
Section Handlers.
Context `{Photo.Host}.

(** The click handler of the toggle button: [togglePerspective] with the
    negated mode, then a render request on the canvas. *)
Definition toggleButton_click : M Photo.State unit :=
  do s <- get;
  let currentMode := Photo.perspectiveMode s.1 in
  Photo.togglePerspective (Some (negb currentMode)) ;;
  Photo.requestRenderAll.

(** The ['mouse:wheel'] handler, up to the call of [zoomToPoint]: the new
    zoom level, for [zoom] the value of [canvas.getZoom()] and [pow] the
    exponentiation operator. *)
Definition wheelZoom (pow : Qc → Qc → Qc) (deltaY : Qc) (zoom : Qc) : Qc :=
  let zoom := zoom * pow (num 999 / num 1000) deltaY in
  let zoom := if decide (num 20 < zoom) then num 20 else zoom in
  let zoom := if decide (zoom < 1 / num 10) then 1 / num 10 else zoom in
  zoom.

(** [updateZoomDisplay]: the text written into the zoom label. *)
Definition updateZoomDisplay (zoom : Qc) : string :=
  pretty (Math_round (zoom * num 100)) +:+ "%".

End Handlers.
End App.

(* ================================================================= *)
(** * Properties *)

(** ** Arithmetic on [Qc] *)

Lemma Qc_eq_iff (a b : Qc) : a = b ↔ (this a == this b)%Q.
Proof. split; [by intros -> | apply Qc_is_canon]. Qed.

(** Linear arithmetic over [Qc], by translation to [Q]. *)
Ltac qc_to_q :=
  repeat match goal with
  | H : ¬ (_ < _)%Qc |- _ => apply Qcnot_lt_le in H
  | H : ¬ (_ <= _)%Qc |- _ => apply Qcnot_le_lt in H
  | H : @eq Qc _ _ |- _ => apply Qc_eq_iff in H
  | H : (_ <= _)%Qc |- _ => unfold Qcle in H
  | H : (_ < _)%Qc |- _ => unfold Qclt in H
  end;
  try match goal with
  | |- ¬ (_ < _)%Qc => apply Qcle_not_lt
  | |- ¬ (_ <= _)%Qc => apply Qclt_not_le
  end;
  try match goal with
  | |- @eq Qc _ _ => apply Qc_is_canon
  | |- (_ <= _)%Qc => unfold Qcle
  | |- (_ < _)%Qc => unfold Qclt
  end;
  unfold Qcminus, Qcopp, Qcplus, Qcmult in *;
  cbn [this Q2Qc] in *;
  rewrite ?Qred_correct in *.

Ltac qc_lra := qc_to_q; lra.

(** Closed goals are decided by evaluation. *)
Ltac by_evaluation := apply (bool_decide_unpack _); vm_compute; exact I.

Lemma or_zero_Some (v : Qc) : or_zero (Some v) = v.
Proof. unfold or_zero. by case_decide. Qed.

Lemma Math_abs_nonneg (v : Qc) : 0 <= Math_abs v.
Proof. unfold Math_abs. case_decide; qc_lra. Qed.

Lemma Math_abs_of_nonneg (v : Qc) : 0 <= v → Math_abs v = v.
Proof. unfold Math_abs. intros. case_decide; qc_lra. Qed.

(** ** The scans of [fabric.util.array] *)

Section Scan.
Context {A : Type} (byProperty : A → Qc).

(** The running minimum of the downward scan. *)
Lemma scan_min (below : list A) (start : Qc) :
  let r := foldl (λ result a,
                    if bool_decide (byProperty a < result)
                    then byProperty a else result) start below in
  r ∈ start :: (byProperty <$> below) ∧
  ∀ v, v ∈ start :: (byProperty <$> below) → r <= v.
Proof.
  revert start. induction below as [|a below IH]; intros start; cbn.
  - split; [left|]. intros v Hv.
    apply list_elem_of_singleton in Hv as ->. apply Qcle_refl.
  - case_bool_decide as Hlt; destruct (IH (byProperty a)) as [Hin1 Hle1];
      destruct (IH start) as [Hin2 Hle2]; cbn in *.
    + split.
      * apply elem_of_cons in Hin1 as [->|Hin1]; [right; left | do 2 right; done].
      * intros v Hv.
        assert (Hhead : foldl (λ result a0,
                    if bool_decide (byProperty a0 < result)
                    then byProperty a0 else result) (byProperty a) below
                        <= byProperty a) by (apply Hle1; left).
        apply elem_of_cons in Hv as [->|Hv].
        -- etrans; [exact Hhead | by apply Qclt_le_weak].
        -- apply Hle1. done.
    + split.
      * apply elem_of_cons in Hin2 as [->|Hin2]; [left | do 2 right; done].
      * intros v Hv.
        assert (Hhead : foldl (λ result a0,
                    if bool_decide (byProperty a0 < result)
                    then byProperty a0 else result) start below
                        <= start) by (apply Hle2; left).
        apply elem_of_cons in Hv as [->|Hv]; [done|].
        apply elem_of_cons in Hv as [->|Hv].
        -- etrans; [exact Hhead | by apply Qcnot_lt_le].
        -- apply Hle2. by right.
Qed.

(** The running maximum of the downward scan. *)
Lemma scan_max (below : list A) (start : Qc) :
  let r := foldl (λ result a,
                    if bool_decide (result <= byProperty a)
                    then byProperty a else result) start below in
  r ∈ start :: (byProperty <$> below) ∧
  ∀ v, v ∈ start :: (byProperty <$> below) → v <= r.
Proof.
  revert start. induction below as [|a below IH]; intros start; cbn.
  - split; [left|]. intros v Hv.
    apply list_elem_of_singleton in Hv as ->. apply Qcle_refl.
  - case_bool_decide as Hle; destruct (IH (byProperty a)) as [Hin1 Hle1];
      destruct (IH start) as [Hin2 Hle2]; cbn in *.
    + split.
      * apply elem_of_cons in Hin1 as [->|Hin1]; [right; left | do 2 right; done].
      * intros v Hv.
        assert (Hhead : byProperty a <= foldl (λ result a0,
                    if bool_decide (result <= byProperty a0)
                    then byProperty a0 else result) (byProperty a) below)
          by (apply Hle1; left).
        apply elem_of_cons in Hv as [->|Hv].
        -- etrans; [exact Hle | exact Hhead].
        -- apply Hle1. done.
    + split.
      * apply elem_of_cons in Hin2 as [->|Hin2]; [left | do 2 right; done].
      * intros v Hv.
        assert (Hhead : start <= foldl (λ result a0,
                    if bool_decide (result <= byProperty a0)
                    then byProperty a0 else result) start below)
          by (apply Hle2; left).
        apply elem_of_cons in Hv as [->|Hv]; [done|].
        apply elem_of_cons in Hv as [->|Hv].
        -- etrans; [|exact Hhead]. apply Qclt_le_weak. by apply Qcnot_le_lt.
        -- apply Hle2. by right.
Qed.

End Scan.

Lemma is_min_unique (m m' : Qc) (vs : list Qc) : is_min m vs → is_min m' vs → m = m'.
Proof. intros [Hin Hle] [Hin' Hle']. apply Qcle_antisym; auto. Qed.

Lemma is_max_unique (m m' : Qc) (vs : list Qc) : is_max m vs → is_max m' vs → m = m'.
Proof. intros [Hin Hle] [Hin' Hle']. apply Qcle_antisym; auto. Qed.

Lemma is_min_fmap (g : Qc → Qc) (m : Qc) (vs : list Qc) :
  (∀ a b, a <= b → g a <= g b) → is_min m vs → is_min (g m) (g <$> vs).
Proof.
  intros Hmono [Hin Hle]. split.
  - by apply list_elem_of_fmap_2.
  - intros v Hv. apply list_elem_of_fmap in Hv as (u & -> & Hu). auto.
Qed.

Lemma is_max_fmap (g : Qc → Qc) (m : Qc) (vs : list Qc) :
  (∀ a b, a <= b → g a <= g b) → is_max m vs → is_max (g m) (g <$> vs).
Proof.
  intros Hmono [Hin Hle]. split.
  - by apply list_elem_of_fmap_2.
  - intros v Hv. apply list_elem_of_fmap in Hv as (u & -> & Hu). auto.
Qed.

Section Extremes.
Context {A : Type} (byProperty : A → Qc).

Lemma scanned_values (array below : list A) (last : A) (v : Qc) :
  reverse array = last :: below →
  v ∈ byProperty last :: (byProperty <$> below) ↔ v ∈ byProperty <$> array.
Proof.
  intros E. apply (f_equal reverse) in E.
  rewrite reverse_involutive, reverse_cons in E. subst array.
  rewrite fmap_app, elem_of_app, elem_of_cons, fmap_reverse, elem_of_reverse.
  cbn. rewrite list_elem_of_singleton. tauto.
Qed.

(** [fabric.util.array.min] returns a least element of a non-empty array. *)
Lemma min_spec (array : list A) :
  array ≠ [] →
  ∃ m, FabricUtil.min array byProperty = Some m ∧ is_min m (byProperty <$> array).
Proof.
  intros Hne. unfold FabricUtil.min, FabricUtil.find.
  destruct (reverse array) as [|last below] eqn:E.
  { apply (f_equal reverse) in E. by rewrite reverse_involutive in E. }
  eexists; split; [done|].
  destruct (scan_min byProperty below (byProperty last)) as [Hin Hle].
  split.
  - by apply (scanned_values array below last).
  - intros v Hv. apply Hle. by apply (scanned_values array below last).
Qed.

(** [fabric.util.array.max] returns a greatest element of a non-empty array. *)
Lemma max_spec (array : list A) :
  array ≠ [] →
  ∃ m, FabricUtil.max array byProperty = Some m ∧ is_max m (byProperty <$> array).
Proof.
  intros Hne. unfold FabricUtil.max, FabricUtil.find.
  destruct (reverse array) as [|last below] eqn:E.
  { apply (f_equal reverse) in E. by rewrite reverse_involutive in E. }
  eexists; split; [done|].
  destruct (scan_max byProperty below (byProperty last)) as [Hin Hle].
  split.
  - by apply (scanned_values array below last).
  - intros v Hv. apply Hle. by apply (scanned_values array below last).
Qed.

(** With the [|| 0] default, the two scans give the extent of the array. *)
Lemma scan_extent (array : list A) :
  extent (byProperty <$> array)
         (or_zero (FabricUtil.min array byProperty))
         (or_zero (FabricUtil.max array byProperty)).
Proof.
  destruct array as [|a array]; [done|].
  destruct (min_spec (a :: array)) as (lo & -> & Hlo); [done|].
  destruct (max_spec (a :: array)) as (hi & -> & Hhi); [done|].
  rewrite !or_zero_Some. done.
Qed.

Lemma extent_ordered (vs : list Qc) (lo hi : Qc) : extent vs lo hi → lo <= hi.
Proof.
  destruct vs as [|v vs]; cbn.
  - intros [-> ->]. apply Qcle_refl.
  - intros [[Hin Hle] [Hin' Hle']]. auto.
Qed.

End Extremes.

(** The scans commute with a monotone change of coordinates. *)
Lemma min_fmap {A B : Type} (g : Qc → Qc) (k : A → B)
    (f : A → Qc) (f' : B → Qc) (array : list A) :
  (∀ a b, a <= b → g a <= g b) → (∀ a, f' (k a) = g (f a)) →
  FabricUtil.min (k <$> array) f' = g <$> FabricUtil.min array f.
Proof.
  intros Hmono Hk. destruct array as [|a array]; [done|].
  destruct (min_spec f (a :: array)) as (m & -> & Hm); [done|].
  destruct (min_spec f' (k <$> a :: array)) as (m' & -> & Hm'); [done|].
  cbn. f_equal. apply (is_min_unique _ _ (f' <$> (k <$> a :: array))); [done|].
  replace (f' <$> (k <$> a :: array)) with (g <$> (f <$> a :: array)).
  - by apply is_min_fmap.
  - rewrite <-!list_fmap_compose. apply list_fmap_ext. intros ? x ?. cbn. by rewrite Hk.
Qed.

Lemma max_fmap {A B : Type} (g : Qc → Qc) (k : A → B)
    (f : A → Qc) (f' : B → Qc) (array : list A) :
  (∀ a b, a <= b → g a <= g b) → (∀ a, f' (k a) = g (f a)) →
  FabricUtil.max (k <$> array) f' = g <$> FabricUtil.max array f.
Proof.
  intros Hmono Hk. destruct array as [|a array]; [done|].
  destruct (max_spec f (a :: array)) as (m & -> & Hm); [done|].
  destruct (max_spec f' (k <$> a :: array)) as (m' & -> & Hm'); [done|].
  cbn. f_equal. apply (is_max_unique _ _ (f' <$> (k <$> a :: array))); [done|].
  replace (f' <$> (k <$> a :: array)) with (g <$> (f <$> a :: array)).
  - by apply is_max_fmap.
  - rewrite <-!list_fmap_compose. apply list_fmap_ext. intros ? x ?. cbn. by rewrite Hk.
Qed.

(** ** The bounding frame *)

Lemma spans_scan {A : Type} (f : A → Qc) (array : list A) :
  spans (f <$> array)
        (Math_abs (or_zero (FabricUtil.max array f) - or_zero (FabricUtil.min array f))).
Proof.
  exists (or_zero (FabricUtil.min array f)), (or_zero (FabricUtil.max array f)).
  split; [apply scan_extent|]. split; [done | apply Math_abs_nonneg].
Qed.

(** The absolute value is redundant: the size is the difference itself. *)
Lemma spans_difference (vs : list Qc) (size : Qc) :
  spans vs size → ∃ lo hi, extent vs lo hi ∧ size = hi - lo.
Proof.
  intros (lo & hi & Hextent & -> & _). exists lo, hi. split; [done|].
  apply Math_abs_of_nonneg. pose proof (extent_ordered vs lo hi Hextent). qc_lra.
Qed.

Lemma entries_as_objects (entries : list point) :
  (λ c : point, (px c, py c)) <$> entries = entries.
Proof.
  rewrite <-(list_fmap_id entries) at 2. apply list_fmap_ext. by intros ? [] ?.
Qed.

Section FilterBounds.

(** The value and the effect of [getPerspectiveBounds], in terms of the
    entries of the filter's coordinate list. *)
Lemma getPerspectiveBounds_eq arg (f : Perspective.t) (h : store) entries :
  deref h (Perspective.perspectiveCoords f) = Some entries →
  let b := Perspective.mkBounds
             (Math_abs (or_zero (FabricUtil.max entries px) - or_zero (FabricUtil.min entries px)))
             (Math_abs (or_zero (FabricUtil.max entries py) - or_zero (FabricUtil.min entries py)))
             (or_zero (FabricUtil.min entries px)) (or_zero (FabricUtil.max entries px))
             (or_zero (FabricUtil.min entries py)) (or_zero (FabricUtil.max entries py)) in
  Perspective.getPerspectiveBounds arg (f, h) = (Done b, (Perspective.set_bounds b f, h)).
Proof.
  intros Hentries. unfold Perspective.getPerspectiveBounds.
  rewrite Hentries, entries_as_objects. done.
Qed.

End FilterBounds.

Section PhotoBounds.
Context `{Runtime}.

Lemma _calcDimensions_eq (p : Photo.t) (h : store) entries :
  deref h (Photo.perspectiveCoords p) = Some entries →
  let coords := (λ c, (px c / devicePixelRatio, py c / devicePixelRatio)) <$> entries in
  Photo._calcDimensions (p, h) =
    (Done (Photo.mkDimensions
             (or_zero (FabricUtil.min coords px)) (or_zero (FabricUtil.min coords py))
             (Math_abs (or_zero (FabricUtil.max coords px) - or_zero (FabricUtil.min coords px)))
             (Math_abs (or_zero (FabricUtil.max coords py) - or_zero (FabricUtil.min coords py)))),
     (p, h)).
Proof. intros Hentries. unfold Photo._calcDimensions. by rewrite Hentries. Qed.

End PhotoBounds.

(** C8.  The width and the height of the frame computed from a coordinate
    list, by [_calcDimensions] of the Photo (on the coordinates divided by
    the device pixel ratio) and by [getPerspectiveBounds] of the filter (on
    the coordinates as stored), are each the absolute value of the
    difference between the greatest and the least coordinate on their
    axis, and are never negative. *)
Theorem C8_frame_size_is_absolute_extent `{Runtime}
    (p : Photo.t) (f : Perspective.t) (h : store) (ps fs : list point) :
  deref h (Photo.perspectiveCoords p) = Some ps →
  deref h (Perspective.perspectiveCoords f) = Some fs →
  (∃ d, (Photo._calcDimensions (p, h)).1 = Done d ∧
        spans ((λ c, px c / devicePixelRatio) <$> ps) (Photo.dim_width d) ∧
        spans ((λ c, py c / devicePixelRatio) <$> ps) (Photo.dim_height d)) ∧
  (∃ b, (Perspective.getPerspectiveBounds None (f, h)).1 = Done b ∧
        spans (px <$> fs) (Perspective.width b) ∧
        spans (py <$> fs) (Perspective.height b)).
Proof.
  intros Hps Hfs. split.
  - rewrite (_calcDimensions_eq p h ps Hps). eexists; split; [done|]. cbn.
    split.
    + pose proof (spans_scan px ((λ c, (px c / devicePixelRatio, py c / devicePixelRatio)) <$> ps)) as Hs.
      by rewrite <-list_fmap_compose in Hs.
    + pose proof (spans_scan py ((λ c, (px c / devicePixelRatio, py c / devicePixelRatio)) <$> ps)) as Hs.
      by rewrite <-list_fmap_compose in Hs.
  - rewrite (getPerspectiveBounds_eq None f h fs Hfs). eexists; split; [done|]. cbn.
    split; apply spans_scan.
Qed.

Lemma C8_witness :
  let p := (draggedPhoto (num 2)).1 in
  let h := (draggedPhoto (num 2)).2 in
  let f := exampleFilter false (Some 1%positive) in
  deref h (Photo.perspectiveCoords p) = Some (draggedQuad (num 2)) ∧
  deref h (Perspective.perspectiveCoords f) = Some (draggedQuad (num 2)) ∧
  (∃ d, (@Photo._calcDimensions retinaDisplay (p, h)).1 = Done d ∧
        spans ((λ c, px c / num 2) <$> draggedQuad (num 2)) (Photo.dim_width d) ∧
        spans ((λ c, py c / num 2) <$> draggedQuad (num 2)) (Photo.dim_height d)) ∧
  (∃ b, (Perspective.getPerspectiveBounds None (f, h)).1 = Done b ∧
        spans (px <$> draggedQuad (num 2)) (Perspective.width b) ∧
        spans (py <$> draggedQuad (num 2)) (Perspective.height b)).
Proof.
  cbv zeta. split; [reflexivity|]. split; [reflexivity|].
  apply (@C8_frame_size_is_absolute_extent retinaDisplay); reflexivity.
Defined.

(** C10.  The [coords] argument of [getPerspectiveBounds] is ignored: with
    any argument the method returns what it returns without one, and
    leaves the filter (whose [bounds] it overwrites) and the store in the
    same state. *)
Theorem C10_getPerspectiveBounds_ignores_argument
    (c : loc) (f : Perspective.t) (h : store) :
  Perspective.getPerspectiveBounds (Some c) (f, h) =
    Perspective.getPerspectiveBounds None (f, h) ∧
  ∀ entries, deref h (Perspective.perspectiveCoords f) = Some entries →
    ∃ b, Perspective.getPerspectiveBounds (Some c) (f, h)
           = (Done b, (Perspective.set_bounds b f, h)) ∧
         extent (px <$> entries) (Perspective.minX b) (Perspective.maxX b) ∧
         extent (py <$> entries) (Perspective.minY b) (Perspective.maxY b).
Proof.
  split; [reflexivity|]. intros entries Hentries.
  eexists. split; [by apply getPerspectiveBounds_eq|].
  cbn. split; apply scan_extent.
Qed.

(** The argument below points at another array than the filter's own. *)
Lemma C10_witness :
  let f := exampleFilter false (Some 1%positive) in
  let h : store := {[ 1%positive := draggedQuad 1; 2%positive := diagonalCorners ]} in
  Perspective.getPerspectiveBounds (Some 2%positive) (f, h) =
    Perspective.getPerspectiveBounds None (f, h) ∧
  deref h (Perspective.perspectiveCoords f) = Some (draggedQuad 1) ∧
  ∃ b, Perspective.getPerspectiveBounds (Some 2%positive) (f, h)
         = (Done b, (Perspective.set_bounds b f, h)) ∧
       extent (px <$> draggedQuad 1) (Perspective.minX b) (Perspective.maxX b) ∧
       extent (py <$> draggedQuad 1) (Perspective.minY b) (Perspective.maxY b).
Proof.
  cbv zeta.
  pose proof (C10_getPerspectiveBounds_ignores_argument 2%positive
                (exampleFilter false (Some 1%positive))
                {[ 1%positive := draggedQuad 1; 2%positive := diagonalCorners ]})
    as [Hsame Hbounds].
  split; [exact Hsame|]. split; [reflexivity|].
  apply Hbounds. reflexivity.
Defined.

(** ** In-place scaling by the filter constructor *)

(** C9.  Constructing a Perspective filter with [perspectiveCoords: P] and
    [pixelRatio: r] multiplies both components of every entry of [P] by
    [r] in place; the filter keeps a reference to [P] itself, so a Photo
    holding the same array sees the scaled coordinates. *)
Theorem C9_constructor_scales_shared_array `{Runtime}
    (P : loc) (r : Qc) (relative : option bool) (entries : list point)
    (h : store) (photo : Photo.t) :
  h !! P = Some entries →
  Photo.perspectiveCoords photo = Some P →
  ∃ filter,
    Perspective.constructor (Some (Perspective.mkInit relative (Some r) (Some P))) h
      = (Done filter, <[P := scale r entries]> h) ∧
    Perspective.perspectiveCoords filter = Some P ∧
    deref (<[P := scale r entries]> h) (Photo.perspectiveCoords photo)
      = Some (scale r entries).
Proof.
  intros HP Hphoto. eexists. split; [|split].
  - unfold Perspective.constructor, Perspective.applyPixelRatio. cbn. rewrite HP. done.
  - done.
  - rewrite Hphoto. cbn. apply lookup_insert_eq.
Qed.

Lemma C9_witness :
  let h : store := {[ 1%positive := draggedQuad 1 ]} in
  let photo := examplePhoto (num 200) (num 100) (Some 1%positive) in
  h !! 1%positive = Some (draggedQuad 1) ∧
  Photo.perspectiveCoords photo = Some 1%positive ∧
  ∃ filter,
    @Perspective.constructor retinaDisplay
      (Some (Perspective.mkInit (Some false) (Some (num 2)) (Some 1%positive))) h
      = (Done filter, <[1%positive := scale (num 2) (draggedQuad 1)]> h) ∧
    Perspective.perspectiveCoords filter = Some 1%positive ∧
    deref (<[1%positive := scale (num 2) (draggedQuad 1)]> h)
          (Photo.perspectiveCoords photo)
      = Some (scale (num 2) (draggedQuad 1)).
Proof.
  cbv zeta. split; [reflexivity|]. split; [reflexivity|].
  apply (@C9_constructor_scales_shared_array retinaDisplay); reflexivity.
Defined.

(** ** Offset normalisation *)

Lemma min_translate_x cs dx dy :
  cs ≠ [] → or_zero (FabricUtil.min (translate dx dy cs) px) = or_zero (FabricUtil.min cs px) - dx.
Proof.
  intros Hne. unfold translate.
  rewrite (min_fmap (λ v, v - dx) _ px px); [| intros; qc_lra | done].
  destruct (min_spec px cs Hne) as (m & -> & _). cbn. by rewrite !or_zero_Some.
Qed.

Lemma min_translate_y cs dx dy :
  cs ≠ [] → or_zero (FabricUtil.min (translate dx dy cs) py) = or_zero (FabricUtil.min cs py) - dy.
Proof.
  intros Hne. unfold translate.
  rewrite (min_fmap (λ v, v - dy) _ py py); [| intros; qc_lra | done].
  destruct (min_spec py cs Hne) as (m & -> & _). cbn. by rewrite !or_zero_Some.
Qed.

Lemma max_translate_x cs dx dy :
  cs ≠ [] → or_zero (FabricUtil.max (translate dx dy cs) px) = or_zero (FabricUtil.max cs px) - dx.
Proof.
  intros Hne. unfold translate.
  rewrite (max_fmap (λ v, v - dx) _ px px); [| intros; qc_lra | done].
  destruct (max_spec px cs Hne) as (m & -> & _). cbn. by rewrite !or_zero_Some.
Qed.

Lemma max_translate_y cs dx dy :
  cs ≠ [] → or_zero (FabricUtil.max (translate dx dy cs) py) = or_zero (FabricUtil.max cs py) - dy.
Proof.
  intros Hne. unfold translate.
  rewrite (max_fmap (λ v, v - dy) _ py py); [| intros; qc_lra | done].
  destruct (max_spec py cs Hne) as (m & -> & _). cbn. by rewrite !or_zero_Some.
Qed.

(** The frame of a coordinate list translated by its own minimum: the
    minimum becomes the origin and the size is kept. *)
Lemma frame_of_normalised cs :
  let lo_x := or_zero (FabricUtil.min cs px) in
  let lo_y := or_zero (FabricUtil.min cs py) in
  let cs' := translate lo_x lo_y cs in
  or_zero (FabricUtil.min cs' px) = 0 ∧
  or_zero (FabricUtil.min cs' py) = 0 ∧
  or_zero (FabricUtil.max cs' px) - or_zero (FabricUtil.min cs' px)
    = or_zero (FabricUtil.max cs px) - lo_x ∧
  or_zero (FabricUtil.max cs' py) - or_zero (FabricUtil.min cs' py)
    = or_zero (FabricUtil.max cs py) - lo_y.
Proof.
  destruct cs as [|c cs]; [cbn; repeat split; qc_lra|].
  cbn zeta.
  rewrite min_translate_x, min_translate_y, max_translate_x, max_translate_y by done.
  repeat split; qc_lra.
Qed.

Lemma translate_by_origin cs : translate 0 0 cs = cs.
Proof.
  unfold translate. rewrite <-(list_fmap_id cs) at 2.
  apply list_fmap_ext. intros ? [a b] ?. cbn. f_equal; qc_lra.
Qed.

Section FilterNormalise.

Lemma calculateCoordsByCorners_eq (f : Perspective.t) (h : store) l entries :
  Perspective.perspectiveCoords f = Some l → h !! l = Some entries →
  Perspective.calculateCoordsByCorners None (f, h) =
    (Done tt, (f, <[l := translate (Perspective.minX (Perspective.bounds f))
                                   (Perspective.minY (Perspective.bounds f)) entries]> h)).
Proof.
  intros Hl Hentries. unfold Perspective.calculateCoordsByCorners.
  rewrite Hl. cbn. rewrite Hentries. done.
Qed.

(** Offset invariance on the filter: [getPerspectiveBounds] followed by
    [calculateCoordsByCorners] leaves a coordinate list whose recomputed
    bounds have their minimum at the origin and the width and height
    found before. *)
Lemma filter_offset_invariance (f : Perspective.t) (h : store) l entries :
  Perspective.perspectiveCoords f = Some l → h !! l = Some entries →
  ∃ b f1 h1 b' f2,
    Perspective.getPerspectiveBounds None (f, h) = (Done b, (f1, h)) ∧
    Perspective.calculateCoordsByCorners None (f1, h) = (Done tt, (f1, h1)) ∧
    Perspective.getPerspectiveBounds None (f1, h1) = (Done b', (f2, h1)) ∧
    Perspective.minX b' = 0 ∧ Perspective.minY b' = 0 ∧
    Perspective.width b' = Perspective.width b ∧
    Perspective.height b' = Perspective.height b.
Proof.
  intros Hl Hentries.
  assert (Hd : deref h (Perspective.perspectiveCoords f) = Some entries)
    by (by rewrite Hl).
  do 5 eexists. split; [by apply getPerspectiveBounds_eq|].
  split; [by apply calculateCoordsByCorners_eq|].
  split.
  { apply getPerspectiveBounds_eq. cbn. rewrite Hl. cbn. apply lookup_insert_eq. }
  cbn. destruct (frame_of_normalised entries) as (Hx & Hy & Hw & Hh).
  cbn zeta in *. rewrite Hx, Hy in *. repeat split; try done.
  - f_equal. rewrite <-Hw. qc_lra.
  - f_equal. rewrite <-Hh. qc_lra.
Qed.

End FilterNormalise.

Section PhotoNormalise.
Context `{Runtime}.

(** The frame that [_calcDimensions] computes from [entries]. *)
Lemma _resetSizeAndPosition_eq index (p : Photo.t) (h : store) l entries :
  Photo.perspectiveCoords p = Some l → h !! l = Some entries →
  ∃ d, Photo._calcDimensions (p, h) = (Done d, (p, h)) ∧
       Photo._resetSizeAndPosition index None (p, h) =
         (Done tt, (Photo.set_size d p,
                    <[l := translate (Photo.left d) (Photo.top d) entries]> h)).
Proof.
  intros Hl Hentries.
  assert (Hd : deref h (Photo.perspectiveCoords p) = Some entries) by (by rewrite Hl).
  eexists. split; [by apply _calcDimensions_eq|].
  unfold Photo._resetSizeAndPosition, Photo._setPositionDimensions, bind.
  rewrite (_calcDimensions_eq p h entries Hd). cbn.
  rewrite Hl. cbn. rewrite Hentries.
  destruct entries as [|e entries]; [|done].
  cbn. by rewrite insert_id.
Qed.

Lemma unscaled_entries (entries : list point) :
  devicePixelRatio = 1 →
  (λ c : point, (px c / devicePixelRatio, py c / devicePixelRatio)) <$> entries = entries.
Proof.
  intros ->. rewrite <-(list_fmap_id entries) at 2.
  apply list_fmap_ext. intros ? [a b] ?. cbn.
  by rewrite !(right_id 1 Qcdiv).
Qed.

(** Offset invariance on the Photo, for a device pixel ratio of 1. *)
Lemma photo_offset_invariance index (p : Photo.t) (h : store) l entries :
  devicePixelRatio = 1 →
  Photo.perspectiveCoords p = Some l → h !! l = Some entries →
  ∃ d p1 h1 d',
    Photo._calcDimensions (p, h) = (Done d, (p, h)) ∧
    Photo._resetSizeAndPosition index None (p, h) = (Done tt, (p1, h1)) ∧
    h1 !! l = Some (translate (Photo.left d) (Photo.top d) entries) ∧
    Photo._calcDimensions (p1, h1) = (Done d', (p1, h1)) ∧
    Photo.left d' = 0 ∧ Photo.top d' = 0 ∧
    Photo.dim_width d' = Photo.dim_width d ∧
    Photo.dim_height d' = Photo.dim_height d.
Proof.
  intros Hr Hl Hentries.
  destruct (_resetSizeAndPosition_eq index p h l entries Hl Hentries) as (d & Hd & Hreset).
  assert (Hderef : deref h (Photo.perspectiveCoords p) = Some entries) by (by rewrite Hl).
  pose proof Hd as Hd0.
  rewrite (_calcDimensions_eq p h entries Hderef) in Hd0.
  rewrite (unscaled_entries entries Hr) in Hd0. cbn zeta in Hd0.
  injection Hd0 as Hdeq.
  set (p1 := Photo.set_size d p) in *.
  set (entries1 := translate (Photo.left d) (Photo.top d) entries) in *.
  set (h1 := <[l := entries1]> h) in *.
  assert (Hh1 : h1 !! l = Some entries1) by apply lookup_insert_eq.
  assert (Hderef1 : deref h1 (Photo.perspectiveCoords p1) = Some entries1)
    by (subst p1; cbn; rewrite Hl; exact Hh1).
  pose proof (_calcDimensions_eq p1 h1 entries1 Hderef1) as Hd1.
  rewrite (unscaled_entries entries1 Hr) in Hd1. cbn zeta in Hd1.
  eexists d, p1, h1, _.
  split; [exact Hd|]. split; [exact Hreset|]. split; [exact Hh1|].
  split; [exact Hd1|].
  subst entries1. rewrite <-Hdeq. cbn [Photo.left Photo.top Photo.dim_width Photo.dim_height].
  destruct (frame_of_normalised entries) as (Hx & Hy & Hw & Hh).
  cbn zeta in *. rewrite Hx, Hy in *. repeat split; try done.
  - f_equal. rewrite <-Hw. qc_lra.
  - f_equal. rewrite <-Hh. qc_lra.
Qed.

End PhotoNormalise.

Lemma Qcinv_pos (r : Qc) : 0 < r → 0 < / r.
Proof.
  unfold Qclt. intros Hr. unfold Qcinv. cbn [this Q2Qc] in *.
  assert (H0 : (0 < / this r)%Q) by (apply Qinv_lt_0_compat; exact Hr).
  assert (H1 : (Qred (/ this r) == / this r)%Q) by apply Qred_correct.
  rewrite H1. exact H0.
Qed.

Lemma Qcdiv_le_mono (r a b : Qc) : 0 < r → a <= b → a / r <= b / r.
Proof.
  intros Hr Hab. unfold Qcdiv. by apply Qcmult_le_mono_pos_r; [apply Qcinv_pos|].
Qed.

Section PhotoResidue.
Context `{Runtime}.

Lemma min_in_css_pixels_x (entries : list point) :
  entries ≠ [] →
  or_zero (FabricUtil.min
             ((λ c, (px c / devicePixelRatio, py c / devicePixelRatio)) <$> entries) px)
    = or_zero (FabricUtil.min entries px) / devicePixelRatio.
Proof.
  intros Hne.
  rewrite (min_fmap (λ v, v / devicePixelRatio) _ px px);
    [| intros; apply Qcdiv_le_mono; [apply devicePixelRatio_positive | done] | done].
  destruct (min_spec px entries Hne) as (m & -> & _). cbn. by rewrite !or_zero_Some.
Qed.

Lemma min_in_css_pixels_y (entries : list point) :
  entries ≠ [] →
  or_zero (FabricUtil.min
             ((λ c, (px c / devicePixelRatio, py c / devicePixelRatio)) <$> entries) py)
    = or_zero (FabricUtil.min entries py) / devicePixelRatio.
Proof.
  intros Hne.
  rewrite (min_fmap (λ v, v / devicePixelRatio) _ py py);
    [| intros; apply Qcdiv_le_mono; [apply devicePixelRatio_positive | done] | done].
  destruct (min_spec py entries Hne) as (m & -> & _). cbn. by rewrite !or_zero_Some.
Qed.

(** At any device pixel ratio [r] the Photo subtracts the minimum divided
    by [r] from coordinates that are not divided: of a minimum [m],
    [m - m / r] is left. *)
Lemma photo_offset_residue index (p : Photo.t) (h : store) l entries :
  entries ≠ [] → Photo.perspectiveCoords p = Some l → h !! l = Some entries →
  let mx := or_zero (FabricUtil.min entries px) in
  let my := or_zero (FabricUtil.min entries py) in
  ∃ p1 h1 entries1,
    Photo._resetSizeAndPosition index None (p, h) = (Done tt, (p1, h1)) ∧
    Photo.pathOffset p1 = Some (mx / devicePixelRatio, my / devicePixelRatio) ∧
    h1 !! l = Some entries1 ∧
    or_zero (FabricUtil.min entries1 px) = mx - mx / devicePixelRatio ∧
    or_zero (FabricUtil.min entries1 py) = my - my / devicePixelRatio.
Proof.
  intros Hne Hl Hentries mx my.
  destruct (_resetSizeAndPosition_eq index p h l entries Hl Hentries) as (d & Hd & Hreset).
  assert (Hderef : deref h (Photo.perspectiveCoords p) = Some entries) by (by rewrite Hl).
  rewrite (_calcDimensions_eq p h entries Hderef) in Hd. cbn zeta in Hd.
  injection Hd as <-.
  cbn [Photo.left Photo.top] in Hreset.
  rewrite min_in_css_pixels_x, min_in_css_pixels_y in Hreset by done.
  eexists _, _, _. split; [exact Hreset|].
  split.
  { reflexivity. }
  split; [apply lookup_insert_eq|].
  by rewrite min_translate_x, min_translate_y by done.
Qed.

End PhotoResidue.

(** C5 (as amended).  On a display whose device pixel ratio is 1, running
    [_resetSizeAndPosition] a second time, with no drag in between, leaves
    the coordinate list, the width and the height as the first run left
    them, and records the path offset (0, 0). *)
Theorem C5_second_reset_keeps_points_and_size `{Runtime}
    (i j : option Z) (p : Photo.t) (h : store) (l : loc) (entries : list point) :
  devicePixelRatio = 1 →
  Photo.perspectiveCoords p = Some l → h !! l = Some entries →
  ∃ p1 h1 p2,
    Photo._resetSizeAndPosition i None (p, h) = (Done tt, (p1, h1)) ∧
    Photo._resetSizeAndPosition j None (p1, h1) = (Done tt, (p2, h1)) ∧
    Photo.perspectiveCoords p2 = Photo.perspectiveCoords p1 ∧
    Photo.width p2 = Photo.width p1 ∧
    Photo.height p2 = Photo.height p1 ∧
    Photo.pathOffset p2 = Some (0, 0).
Proof.
  intros Hr Hl Hentries.
  destruct (photo_offset_invariance i p h l entries Hr Hl Hentries)
    as (d & p1 & h1 & d' & Hd & Hreset & Hh1 & Hd' & Hleft & Htop & Hw & Hh).
  assert (Hp1 : p1 = Photo.set_size d p ∧
                h1 = <[l := translate (Photo.left d) (Photo.top d) entries]> h).
  { destruct (_resetSizeAndPosition_eq i p h l entries Hl Hentries) as (d0 & Hd0 & Hreset0).
    rewrite Hd in Hd0. injection Hd0 as <-.
    rewrite Hreset in Hreset0. by injection Hreset0 as -> ->. }
  destruct Hp1 as [Hp1 Hh1'].
  assert (Hl1 : Photo.perspectiveCoords p1 = Some l) by (by rewrite Hp1).
  destruct (_resetSizeAndPosition_eq j p1 h1 l _ Hl1 Hh1) as (d1 & Hd1 & Hreset1).
  rewrite Hd' in Hd1. injection Hd1 as <-.
  exists p1, h1, (Photo.set_size d' p1). split; [done|]. split.
  - rewrite Hreset1, Hleft, Htop. do 2 f_equal.
    rewrite translate_by_origin. by apply insert_id.
  - cbn. rewrite Hp1. cbn. rewrite Hw, Hh, Hleft, Htop. done.
Qed.

(** C5, counterexample to the claim as stated.  On the 200 x 100 image with
    corner 1 dragged to (220, -10) and a device pixel ratio of 1, the first
    [_resetSizeAndPosition] records the path offset (0, -10) and the second
    one records (0, 0): the bounding frame is not left unchanged. *)
Lemma C5_counterexample_pathOffset_changes :
  let s1 := (@Photo._resetSizeAndPosition standardDisplay None None (draggedPhoto 1)).2 in
  let s2 := (@Photo._resetSizeAndPosition standardDisplay None None s1).2 in
  Photo.pathOffset s1.1 = Some (0, num (-10)) ∧
  Photo.pathOffset s2.1 = Some (0, 0) ∧
  Photo.pathOffset s2.1 ≠ Photo.pathOffset s1.1.
Proof. cbv zeta. split; [by_evaluation|]. split; by_evaluation. Qed.

Lemma C5_witness :
  @devicePixelRatio standardDisplay = 1 ∧
  Photo.perspectiveCoords (draggedPhoto 1).1 = Some 1%positive ∧
  (draggedPhoto 1).2 !! 1%positive = Some (draggedQuad 1) ∧
  ∃ p1 h1 p2,
    @Photo._resetSizeAndPosition standardDisplay None None (draggedPhoto 1)
      = (Done tt, (p1, h1)) ∧
    @Photo._resetSizeAndPosition standardDisplay None None (p1, h1)
      = (Done tt, (p2, h1)) ∧
    Photo.perspectiveCoords p2 = Photo.perspectiveCoords p1 ∧
    Photo.width p2 = Photo.width p1 ∧
    Photo.height p2 = Photo.height p1 ∧
    Photo.pathOffset p2 = Some (0, 0).
Proof.
  assert (Hratio : @devicePixelRatio standardDisplay = 1) by by_evaluation.
  split; [exact Hratio|]. split; [reflexivity|]. split; [reflexivity|].
  apply (@C5_second_reset_keeps_points_and_size standardDisplay
           None None (draggedPhoto 1).1 (draggedPhoto 1).2 1%positive (draggedQuad 1));
    [exact Hratio | reflexivity | reflexivity].
Defined.

(** C1, evaluated on the Photo at a device pixel ratio of 2.  The 200 x 100
    image with corner 1 dragged to (220, -10) holds, in device pixels, the
    corners (0, 0), (440, -20), (400, 200), (0, 200).  [_calcDimensions]
    finds the top edge at -10 (in CSS pixels), [_setPositionDimensions]
    stores it as the path offset, and [_applyPointsOffset] subtracts that
    CSS-pixel offset from the device-pixel coordinates: the least [y] of
    the resulting point set is -10, not 0, and the recomputed frame has its
    top at -5. *)
Theorem C1_photo_offset_at_pixel_ratio_2 :
  ∃ p1 h1,
    (@Photo._setPositionDimensions retinaDisplay ;; Photo._applyPointsOffset)
      (draggedPhoto (num 2)) = (Done tt, (p1, h1)) ∧
    Photo.pathOffset p1 = Some (0, num (-10)) ∧
    deref h1 (Photo.perspectiveCoords p1)
      = Some [(0, num 10); (num 440, num (-10)); (num 400, num 210); (0, num 210)] ∧
    FabricUtil.min [(0, num 10); (num 440, num (-10)); (num 400, num 210); (0, num 210)] py
      = Some (num (-10)) ∧
    (@Photo._calcDimensions retinaDisplay (p1, h1)).1
      = Done (Photo.mkDimensions 0 (num (-5)) (num 220) (num 110)).
Proof.
  eexists _, _. split; [reflexivity|].
  split; [by_evaluation|]. split; [by_evaluation|]. split; by_evaluation.
Qed.

(** The same input on the filter: there the offset is subtracted in the
    units of the coordinates, and the least [y] becomes 0. *)
Lemma filter_offset_at_pixel_ratio_2 :
  let f := exampleFilter true (Some 1%positive) in
  let h : store := {[ 1%positive := draggedQuad (num 2) ]} in
  ∃ b f1 h1,
    Perspective.getPerspectiveBounds None (f, h) = (Done b, (f1, h)) ∧
    Perspective.calculateCoordsByCorners None (f1, h) = (Done tt, (f1, h1)) ∧
    h1 !! 1%positive
      = Some [(0, num 20); (num 440, 0); (num 400, num 220); (0, num 220)].
Proof.
  cbv zeta. eexists _, _, _. split; [reflexivity|]. split; [reflexivity|]. by_evaluation.
Qed.

(** ** Tessellation *)

Section Surface.
Context `{Runtime}.

Lemma generateSurface_eq args (f : Perspective.t) (h : store) corners :
  deref h (Perspective.perspectiveCoords f) = Some corners →
  Perspective.generateSurface args (f, h) =
    (match byCorners corners with
     | Done surface => tessellate surface
     | Thrown e => Thrown e
     end, (f, h)).
Proof.
  intros Hcorners. unfold Perspective.generateSurface. rewrite Hcorners.
  by destruct (byCorners corners).
Qed.

End Surface.

(** C3 (as amended).  [generateSurface] does not inspect the corners: it
    hands the stored corner list, whatever its shape, to the NURBS library
    and returns the library's tessellation; the filter and the store are
    left as they were, and the only errors are those that the library
    itself throws. *)
Theorem C3_generateSurface_returns_library_result `{Runtime}
    (args : list Qc) (f : Perspective.t) (h : store) (corners : list point) :
  deref h (Perspective.perspectiveCoords f) = Some corners →
  (∀ surface mesh,
     byCorners corners = Done surface → tessellate surface = Done mesh →
     Perspective.generateSurface args (f, h) = (Done mesh, (f, h))) ∧
  (∀ e,
     (Perspective.generateSurface args (f, h)).1 = Thrown e →
     byCorners corners = Thrown e ∨
     ∃ surface, byCorners corners = Done surface ∧ tessellate surface = Thrown e).
Proof.
  intros Hcorners. rewrite (generateSurface_eq args f h corners Hcorners). split.
  - intros surface mesh -> ->. done.
  - intros e. cbn. destruct (byCorners corners) as [surface|e'] eqn:E.
    + intros He. right. by exists surface.
    + intros [= ->]. by left.
Qed.

(** C3, counterexample to the claim as stated.  Four corners on the line
    [y = x] enclose no area, and so do three corners on it; with a NURBS
    library that tessellates what it is given, [generateSurface] returns
    a mesh for either and throws nothing. *)
Lemma C3_counterexample_collinear_corners :
  let f := exampleFilter false (Some 1%positive) in
  let h4 : store := {[ 1%positive := diagonalCorners ]} in
  let h3 : store := {[ 1%positive := take 3 diagonalCorners ]} in
  collinear diagonalCorners = true ∧
  @Perspective.generateSurface standardDisplay [] (f, h4)
    = (Done (quadMesh diagonalCorners), (f, h4)) ∧
  @Perspective.generateSurface standardDisplay [] (f, h3)
    = (Done (quadMesh (take 3 diagonalCorners)), (f, h3)) ∧
  (@Perspective.generateSurface standardDisplay [] (f, h4)).1 ≠ Thrown DegenerateGeometry ∧
  (@Perspective.generateSurface standardDisplay [] (f, h3)).1 ≠ Thrown DegenerateGeometry.
Proof.
  cbv zeta. split; [by_evaluation|].
  split; [reflexivity|]. split; [reflexivity|]. split; discriminate.
Qed.

Lemma C3_witness :
  let f := exampleFilter false (Some 1%positive) in
  let h : store := {[ 1%positive := diagonalCorners ]} in
  deref h (Perspective.perspectiveCoords f) = Some diagonalCorners ∧
  @Perspective.generateSurface standardDisplay [] (f, h)
    = (Done (quadMesh diagonalCorners), (f, h)).
Proof.
  cbv zeta.
  assert (Hcorners : deref ({[ 1%positive := diagonalCorners ]} : store)
                       (Perspective.perspectiveCoords (exampleFilter false (Some 1%positive)))
                     = Some diagonalCorners) by reflexivity.
  destruct (@C3_generateSurface_returns_library_result standardDisplay []
              _ _ _ Hcorners) as [Hmesh _].
  split; [exact Hcorners|].
  apply (Hmesh diagonalCorners); reflexivity.
Defined.

(** C4 is not stated.  That two calls on identical corners yield identical
    meshes, with UVs equal up to a floating-point tolerance, is a property
    of verb-nurbs-web's [byCorners] and [tessellate]; they enter the
    embedding as functions of the [Runtime], for which it would hold by
    typing.  What [generateSurface] itself contributes, that it hands the
    corner list to the library and returns what the library returns, is
    C3. *)

(** ** Rendering without a usable backend *)

Lemma bind_done {S A B} (m : M S A) (k : A → M S B) s a s' :
  m s = (Done a, s') → bind m k s = k a s'.
Proof. unfold bind. by intros ->. Qed.

Lemma bind_thrown {S A B} (m : M S A) (k : A → M S B) s e s' :
  m s = (Thrown e, s') → bind m k s = (Thrown e, s').
Proof. unfold bind. by intros ->. Qed.

Section Render.
Context `{Runtime}.

Lemma onFilter_eq {A} (m : M Perspective.State A) fs o r fs' :
  m fs = (r, fs') → Perspective.onFilter m (fs, o) = (r, (fs', o)).
Proof. unfold Perspective.onFilter, zoom. cbn. by intros ->. Qed.

Lemma onOptions_eq {A} (m : M Options A) (fs : Perspective.State) o r o' :
  m o = (r, o') → Perspective.onOptions m (fs, o) = (r, (fs, o')).
Proof. unfold Perspective.onOptions, zoom. cbn. by intros ->. Qed.

Lemma calculateCoordsByCorners_done (f : Perspective.t) (h : store) entries :
  deref h (Perspective.perspectiveCoords f) = Some entries →
  ∃ h', Perspective.calculateCoordsByCorners None (f, h) = (Done tt, (f, h')).
Proof.
  unfold deref. destruct (Perspective.perspectiveCoords f) as [l|] eqn:Hl; [|done].
  cbn. intros Hentries. eexists. by apply calculateCoordsByCorners_eq.
Qed.

(** With WebGL in use, [applyTo] sizes the canvas from the bounds, sets
    up the frame buffer and enters [applyToWebGL]. *)
Lemma applyTo_enters_applyToWebGL (f : Perspective.t) (h : store) (o : Options) entries :
  webgl o = true →
  deref h (Perspective.perspectiveCoords f) = Some entries →
  ∃ b f' h',
    Perspective.getPerspectiveBounds None (f, h) = (Done b, (f', h)) ∧
    Perspective.applyTo (f, h, o) =
      (Perspective.applyToWebGL ;; Perspective.onOptions (modify _swapTextures))
        (f', h',
         _setupFrameBuffer
           (Perspective.resize (Perspective.width b) (Perspective.height b) o).2).
Proof.
  intros Hwebgl Hentries.
  pose proof (getPerspectiveBounds_eq None f h entries Hentries) as Hb. cbn zeta in Hb.
  set (b := Perspective.mkBounds _ _ _ _ _ _) in Hb.
  assert (Hentries' : deref h (Perspective.perspectiveCoords (Perspective.set_bounds b f))
                      = Some entries) by done.
  destruct (calculateCoordsByCorners_done _ h entries Hentries') as [h' Hcalc].
  exists b, (Perspective.set_bounds b f),
         (if Perspective.hasRelativeCoordinates f then h' else h).
  split; [exact Hb|].
  unfold Perspective.applyTo.
  rewrite (bind_done _ _ (f, h, o) o (f, h, o)) by reflexivity.
  rewrite Hwebgl.
  rewrite (bind_done _ _ _ _ _ (onFilter_eq _ _ o _ _ Hb)).
  rewrite (bind_done _ _ _ tt
             (Perspective.set_bounds b f, h,
              (Perspective.resize (Perspective.width b) (Perspective.height b) o).2))
    by reflexivity.
  rewrite (bind_done _ _ _ (Perspective.set_bounds b f, h) _) by reflexivity.
  cbn [fst snd Perspective.set_bounds Perspective.hasRelativeCoordinates].
  destruct (Perspective.hasRelativeCoordinates f).
  - rewrite (bind_done _ _ _ _ _ (onFilter_eq _ _ _ _ _ Hcalc)).
    by rewrite (bind_done _ _ _ tt
                  (Perspective.set_bounds b f, h',
                   _setupFrameBuffer
                     (Perspective.resize (Perspective.width b) (Perspective.height b) o).2))
      by reflexivity.
  - rewrite (bind_done _ _ _ tt
               (Perspective.set_bounds b f, h,
                (Perspective.resize (Perspective.width b) (Perspective.height b) o).2))
      by reflexivity.
    by rewrite (bind_done _ _ _ tt
                  (Perspective.set_bounds b f, h,
                   _setupFrameBuffer
                     (Perspective.resize (Perspective.width b) (Perspective.height b) o).2))
      by reflexivity.
Qed.

Lemma applyToWebGL_shader_failure (s : Perspective.State) (o o' : Options) e :
  retrieveShader o = (Thrown e, o') →
  Perspective.applyToWebGL (s, o) = (Thrown e, (s, o')).
Proof.
  intros Hshader. unfold Perspective.applyToWebGL.
  apply bind_thrown. by apply onOptions_eq.
Qed.

End Render.

(** C7 (as amended).  When the backend does not use WebGL ([options.webgl]
    is falsy), [applyTo] returns normally and touches neither the filter,
    nor the coordinates, nor the options: nothing is rendered and no error
    is raised.  When WebGL is in use and the shader program cannot be
    retrieved, the error thrown by [retrieveShader] reaches the caller as
    it is. *)
Theorem C7_applyTo_without_backend `{Runtime}
    (f : Perspective.t) (h : store) (o : Options) :
  (webgl o = false → Perspective.applyTo (f, h, o) = (Done tt, (f, h, o))) ∧
  (∀ entries b e o',
     webgl o = true →
     deref h (Perspective.perspectiveCoords f) = Some entries →
     (Perspective.getPerspectiveBounds None (f, h)).1 = Done b →
     retrieveShader
       (_setupFrameBuffer
          (Perspective.resize (Perspective.width b) (Perspective.height b) o).2)
       = (Thrown e, o') →
     (Perspective.applyTo (f, h, o)).1 = Thrown e).
Proof.
  split.
  - intros Hwebgl. unfold Perspective.applyTo.
    rewrite (bind_done _ _ (f, h, o) o (f, h, o)) by reflexivity.
    by rewrite Hwebgl.
  - intros entries b e o' Hwebgl Hentries Hb Hshader.
    destruct (applyTo_enters_applyToWebGL f h o entries Hwebgl Hentries)
      as (b' & f' & h' & Hb' & ->).
    rewrite Hb' in Hb. injection Hb as ->.
    erewrite bind_thrown; [done|].
    by apply applyToWebGL_shader_failure.
Qed.

(** C7, counterexample to the claim as stated.  With a backend that does
    not use WebGL, [applyTo] returns [undefined] and changes nothing: the
    render request is dropped silently, no error surfaces. *)
Lemma C7_counterexample_silent_without_webgl :
  let f := exampleFilter false (Some 1%positive) in
  let h : store := {[ 1%positive := draggedQuad 1 ]} in
  let o := examplePipeline false in
  webgl o = false ∧
  @Perspective.applyTo canvas2dBackend (f, h, o) = (Done tt, (f, h, o)) ∧
  (@Perspective.applyTo canvas2dBackend (f, h, o)).1 ≠ Thrown RenderBackendUnavailable.
Proof. cbv zeta. split; [reflexivity|]. split; [reflexivity | discriminate]. Qed.

Lemma C7_witness :
  let f := exampleFilter false (Some 1%positive) in
  let h : store := {[ 1%positive := draggedQuad 1 ]} in
  (webgl (examplePipeline false) = false ∧
   @Perspective.applyTo canvas2dBackend (f, h, examplePipeline false)
     = (Done tt, (f, h, examplePipeline false))) ∧
  (webgl (examplePipeline true) = true ∧
   deref h (Perspective.perspectiveCoords f) = Some (draggedQuad 1) ∧
   (@Perspective.applyTo failedCompilation (f, h, examplePipeline true)).1
     = Thrown (JsError "Error")).
Proof.
  cbv zeta. split.
  - split; [reflexivity|].
    apply (@C7_applyTo_without_backend canvas2dBackend). reflexivity.
  - split; [reflexivity|]. split; [reflexivity|].
    destruct (@C7_applyTo_without_backend failedCompilation
                (exampleFilter false (Some 1%positive))
                {[ 1%positive := draggedQuad 1 ]} (examplePipeline true)) as [_ Hfail].
    eapply (Hfail (draggedQuad 1)); reflexivity.
Defined.

(** ** What a render pass leaves untouched *)

Section RenderFootprint.
Context `{Runtime}.

Lemma onOptions_state {A} (m : M Options A) (s : Perspective.State) o :
  ∃ r o', Perspective.onOptions m (s, o) = (r, (s, o')).
Proof.
  unfold Perspective.onOptions, zoom. cbn. destruct (m o) as [r o']. by eexists _, _.
Qed.

Lemma generateSurface_state args (s : Perspective.State) :
  ∃ r, Perspective.generateSurface args s = (r, s).
Proof.
  destruct s as [f h]. unfold Perspective.generateSurface.
  destruct (deref h (Perspective.perspectiveCoords f)); [|by eexists].
  destruct (byCorners l); by eexists.
Qed.

(** [applyToWebGL] reads the filter and the store and writes neither. *)
Lemma applyToWebGL_state (s : Perspective.State) o :
  ∃ r o', Perspective.applyToWebGL (s, o) = (r, (s, o')).
Proof.
  unfold Perspective.applyToWebGL.
  destruct (onOptions_state retrieveShader s o) as ([shader|e] & o1 & Hshader);
    [|erewrite bind_thrown by exact Hshader; by eexists _, _].
  erewrite bind_done by exact Hshader.
  erewrite bind_done by reflexivity.
  destruct (generateSurface_state [sourceWidth o1; sourceHeight o1] s) as ([tess|e] & Htess).
  - erewrite bind_done by (apply onFilter_eq; exact Htess).
    apply onOptions_state.
  - erewrite bind_thrown by (apply onFilter_eq; exact Htess). by eexists _, _.
Qed.

(** A render pass keeps the filter's reference and mode, and writes to
    the store only at the filter's own coordinate list, and only when
    the filter uses relative coordinates. *)
Lemma applyTo_footprint (f : Perspective.t) (h : store) (o : Options) (l : loc) :
  (Perspective.perspectiveCoords f = Some l →
   Perspective.hasRelativeCoordinates f = false) →
  ∃ r f' h' o',
    Perspective.applyTo (f, h, o) = (r, (f', h', o')) ∧
    Perspective.perspectiveCoords f' = Perspective.perspectiveCoords f ∧
    Perspective.hasRelativeCoordinates f' = Perspective.hasRelativeCoordinates f ∧
    h' !! l = h !! l.
Proof.
  intros Hl. unfold Perspective.applyTo.
  rewrite (bind_done _ _ (f, h, o) o (f, h, o)) by reflexivity.
  destruct (webgl o); [|by eexists _, _, _, _].
  destruct (deref h (Perspective.perspectiveCoords f)) as [entries|] eqn:Hentries.
  2:{ erewrite bind_thrown; [by eexists _, _, _, _|].
      apply onFilter_eq. unfold Perspective.getPerspectiveBounds. by rewrite Hentries. }
  pose proof (getPerspectiveBounds_eq None f h entries Hentries) as Hb. cbn zeta in Hb.
  set (b := Perspective.mkBounds _ _ _ _ _ _) in Hb.
  rewrite (bind_done _ _ _ _ _ (onFilter_eq _ _ o _ _ Hb)).
  rewrite (bind_done _ _ _ tt
             (Perspective.set_bounds b f, h,
              (Perspective.resize (Perspective.width b) (Perspective.height b) o).2))
    by reflexivity.
  rewrite (bind_done _ _ _ (Perspective.set_bounds b f, h) _) by reflexivity.
  cbn [fst snd Perspective.set_bounds Perspective.hasRelativeCoordinates].
  set (o1 := (Perspective.resize _ _ o).2).
  assert (Hstep : ∃ h1,
    (if Perspective.hasRelativeCoordinates f
     then Perspective.onFilter (Perspective.calculateCoordsByCorners None)
     else ret tt) (Perspective.set_bounds b f, h, o1)
      = (Done tt, (Perspective.set_bounds b f, h1, o1)) ∧ h1 !! l = h !! l).
  { destruct (Perspective.hasRelativeCoordinates f) eqn:Hrel; [|by exists h].
    destruct (Perspective.perspectiveCoords f) as [c|] eqn:Hc; [|done].
    cbn in Hentries. eexists. split.
    - apply onFilter_eq. by apply calculateCoordsByCorners_eq.
    - apply lookup_insert_ne. intros ->. by specialize (Hl eq_refl). }
  destruct Hstep as (h1 & Hstep & Hh1).
  rewrite (bind_done _ _ _ _ _ Hstep).
  rewrite (bind_done _ _ _ tt (Perspective.set_bounds b f, h1, _setupFrameBuffer o1))
    by reflexivity.
  destruct (applyToWebGL_state (Perspective.set_bounds b f, h1) (_setupFrameBuffer o1))
    as ([[]|e] & o2 & Hgl).
  - rewrite (bind_done _ _ _ _ _ Hgl).
    destruct (onOptions_state (modify _swapTextures) (Perspective.set_bounds b f, h1) o2)
      as (r & o3 & ->).
    by eexists _, _, _, _.
  - rewrite (bind_thrown _ _ _ _ _ Hgl). by eexists _, _, _, _.
Qed.

End RenderFootprint.

(** ** The initial perspective *)

Section Initial.
Context `{Runtime} `{Photo.Host}.

Lemma applyFilterAt_footprint (l : loc) i fs (h : store) o :
  Forall (spares l) fs →
  ∃ r fs' h' o',
    Photo.applyFilterAt i (fs, h, o) = (r, (fs', h', o')) ∧
    Forall (spares l) fs' ∧ length fs' = length fs ∧ h' !! l = h !! l.
Proof.
  intros Hfs. unfold Photo.applyFilterAt.
  destruct (fs !! i) as [f|] eqn:Hf; [|by eexists _, _, _, _].
  assert (Hspare : spares l f) by (by eapply Forall_lookup_1).
  destruct (applyTo_footprint f h o l Hspare) as (r & f' & h' & o' & -> & Hc & Hrel & Hh').
  eexists _, _, _, _. split; [done|]. split; [|split; [by rewrite length_insert | done]].
  apply Forall_insert; [done|]. unfold spares. by rewrite Hc, Hrel.
Qed.

Lemma applyEach_footprint (l : loc) (indices : list nat) fs (h : store) o :
  Forall (spares l) fs →
  ∃ r fs' h' o',
    foldr (λ i rest, Photo.applyFilterAt i ;; rest) (ret tt) indices (fs, h, o)
      = (r, (fs', h', o')) ∧
    h' !! l = h !! l.
Proof.
  revert fs h o. induction indices as [|i indices IH]; intros fs h o Hfs; cbn.
  - by eexists _, _, _, _.
  - destruct (applyFilterAt_footprint l i fs h o Hfs)
      as ([[]|e] & fs1 & h1 & o1 & Hstep & Hfs1 & _ & Hh1).
    + rewrite (bind_done _ _ _ _ _ Hstep).
      destruct (IH fs1 h1 o1 Hfs1) as (r & fs' & h' & o' & -> & Hh').
      eexists _, _, _, _. split; [done|]. by rewrite Hh'.
    + rewrite (bind_thrown _ _ _ _ _ Hstep). by eexists _, _, _, _.
Qed.

(** [applyFilters] keeps every field of the Photo but [filters], and the
    coordinate list at [l] when every filter spares it. *)
Lemma applyFilters_footprint (l : loc) (p : Photo.t) (h : store) :
  Forall (spares l) (Photo.filters p) →
  ∃ r fs' h',
    Photo.applyFilters (p, h) = (r, (Photo.set_filters fs' p, h')) ∧
    h' !! l = h !! l.
Proof.
  intros Hfs. unfold Photo.applyFilters.
  destruct (applyEach_footprint l (seq 0 (length (Photo.filters p)))
              (Photo.filters p) h pipelineState Hfs)
    as (r & fs' & h' & o' & -> & Hh').
  by eexists _, _, _.
Qed.

End Initial.

(** C2.  [getInitialPerspective] allocates a new coordinate list, stores it
    in [this.perspectiveCoords] and hands it to a new filter, whose
    constructor scales it in place.  On return from the call, and also when
    the filter backend throws while the filters are applied, the Photo
    holds exactly the four corners (0,0), (w,0), (w,h), (0,h), in this
    order, each multiplied by the device pixel ratio, for [w] and [h] the
    scaled width and height of the image; the call returns that list
    unless applying the filters throws. *)
Theorem C2_initial_corners `{Runtime} `{Photo.Host} (p : Photo.t) (h : store) :
  (∀ f l, f ∈ Photo.filters p → Perspective.perspectiveCoords f = Some l → l ∈ dom h) →
  let w := Photo.getScaledWidth p in
  let hh := Photo.getScaledHeight p in
  let corners := scale devicePixelRatio [(0, 0); (w, 0); (w, hh); (0, hh)] in
  ∃ l filter rendered p' h',
    h !! l = None ∧
    filter = Perspective.mk devicePixelRatio (Perspective.mkBounds 0 0 0 0 0 0) false (Some l) ∧
    Photo.applyFilters
      (Photo.set_filters (Photo.filters p ++ [filter]) (Photo.set_perspectiveCoords l p),
       <[l := corners]> h) = (rendered, (p', h')) ∧
    Photo.getInitialPerspective (p, h) =
      (match rendered with Done _ => Done l | Thrown e => Thrown e end, (p', h')) ∧
    Photo.perspectiveCoords p' = Some l ∧
    deref h' (Photo.perspectiveCoords p') = Some corners.
Proof.
  intros Hwf w hh corners.
  set (l := fresh (dom h)).
  assert (Hfresh : h !! l = None) by (apply not_elem_of_dom, is_fresh).
  set (filter := Perspective.mk devicePixelRatio (Perspective.mkBounds 0 0 0 0 0 0)
                                false (Some l)).
  set (pMid := Photo.set_filters (Photo.filters p ++ [filter])
                                 (Photo.set_perspectiveCoords l p)).
  assert (Hspares : Forall (spares l) (Photo.filters pMid)).
  { subst pMid. cbn. apply Forall_app. split.
    - apply Forall_forall. intros f Hf Hl. apply list_elem_of_In in Hf.
      apply Hwf in Hl; [|done].
      by apply is_fresh in Hl.
    - by apply Forall_singleton. }
  destruct (applyFilters_footprint l pMid (<[l := corners]> h) Hspares)
    as (rendered & fs' & h' & Hrender & Hh').
  exists l, filter, rendered, (Photo.set_filters fs' pMid), h'.
  split; [done|]. split; [done|]. split; [exact Hrender|].
  split; [|split; [done|]].
  - unfold Photo.getInitialPerspective.
    rewrite (bind_done _ _ (p, h) (p, h) (p, h)) by reflexivity.
    cbn [fst snd]. fold l.
    rewrite (bind_done _ _ _ tt
               (Photo.set_perspectiveCoords l p,
                <[l := [(0, 0); (w, 0); (w, hh); (0, hh)]]> h)) by reflexivity.
    rewrite (bind_done _ _ _ filter (Photo.set_perspectiveCoords l p, <[l := corners]> h)).
    2:{ unfold zoom. cbn [fst snd].
        unfold Perspective.constructor, Perspective.applyPixelRatio. cbn.
        rewrite lookup_insert_eq. by rewrite insert_insert_eq. }
    rewrite (bind_done _ _ _ tt (pMid, <[l := corners]> h)) by reflexivity.
    destruct rendered as [[]|e].
    + by rewrite (bind_done _ _ _ _ _ Hrender).
    + by rewrite (bind_thrown _ _ _ _ _ Hrender).
  - cbn. rewrite Hh'. apply lookup_insert_eq.
Qed.

Lemma C2_witness :
  let p := examplePhoto (num 200) (num 100) None in
  let h : store := ∅ in
  let corners := scale (num 2) [(0, 0); (num 200, 0); (num 200, num 100); (0, num 100)] in
  (∀ f l, f ∈ Photo.filters p → Perspective.perspectiveCoords f = Some l → l ∈ dom h) ∧
  ∃ l filter rendered p' h',
    h !! l = None ∧
    filter = Perspective.mk (num 2) (Perspective.mkBounds 0 0 0 0 0 0) false (Some l) ∧
    @Photo.applyFilters retinaDisplay
      (Photo.set_filters (Photo.filters p ++ [filter]) (Photo.set_perspectiveCoords l p),
       <[l := corners]> h) = (rendered, (p', h')) ∧
    @Photo.getInitialPerspective retinaDisplay exampleHost (p, h) =
      (match rendered with Done _ => Done l | Thrown e => Thrown e end, (p', h')) ∧
    Photo.perspectiveCoords p' = Some l ∧
    deref h' (Photo.perspectiveCoords p') = Some corners.
Proof.
  cbv zeta.
  assert (Hwf : ∀ f l, f ∈ Photo.filters (examplePhoto (num 200) (num 100) None) →
                       Perspective.perspectiveCoords f = Some l → l ∈ dom (∅ : store)).
  { intros f l Hf. cbn in Hf. by apply elem_of_nil in Hf. }
  split; [exact Hwf|].
  pose proof (@C2_initial_corners retinaDisplay exampleHost
                (examplePhoto (num 200) (num 100) None) ∅ Hwf) as Hc.
  cbv zeta in Hc.
  replace (num 200) with (@Photo.getScaledWidth exampleHost
                            (examplePhoto (num 200) (num 100) None)) at 1 2
    by by_evaluation.
  replace (num 100) with (@Photo.getScaledHeight exampleHost
                            (examplePhoto (num 200) (num 100) None)) at 1 2
    by by_evaluation.
  exact Hc.
Defined.

(** The call evaluated for the 200 x 100 image on a display with a device
    pixel ratio of 2: it returns the new list, which holds the corners in
    device pixels. *)
Example getInitialPerspective_retina :
  let r := @Photo.getInitialPerspective retinaDisplay exampleHost
             (examplePhoto (num 200) (num 100) None, ∅) in
  r.1 = Done 1%positive ∧
  deref r.2.2 (Photo.perspectiveCoords r.2.1)
    = Some [(0, 0); (num 400, 0); (num 400, num 200); (0, num 200)].
Proof. cbv zeta. split; by_evaluation. Qed.

(** ** Controls and drags *)

Lemma control_name_inj (lastControl lastControl' : Z) (i j : nat) :
  Photo.name (Photo.perspectiveControl lastControl i)
    = Photo.name (Photo.perspectiveControl lastControl' j) → i = j.
Proof.
  cbn [Photo.perspectiveControl Photo.name]. intros Hname.
  apply (inj (String.append "prs")) in Hname.
  apply (inj pretty) in Hname. lia.
Qed.

(** The map built by the [reduce]: which keys it has, and what they hold. *)
Lemma lookup_reduce (lastControl : Z) (indices : list nat) (key : string) (c : Photo.Control) :
  foldl (λ (acc : gmap string Photo.Control) index,
           <[Photo.name (Photo.perspectiveControl lastControl index) :=
               Photo.perspectiveControl lastControl index]> acc)
        ∅ indices !! key = Some c ↔
  ∃ index, index ∈ indices ∧
           key = Photo.name (Photo.perspectiveControl lastControl index) ∧
           c = Photo.perspectiveControl lastControl index.
Proof.
  induction indices as [|i indices IH] using rev_ind.
  - cbn. rewrite lookup_empty. split; [done|]. intros (index & Hin & _).
    by apply elem_of_nil in Hin.
  - rewrite foldl_snoc.
    destruct (decide (key = Photo.name (Photo.perspectiveControl lastControl i))) as [->|Hne].
    + rewrite lookup_insert_eq. split.
      * intros [= <-]. exists i. split; [|done]. apply elem_of_app. right. by left.
      * intros (index & _ & Hname & ->).
        by apply control_name_inj in Hname as ->.
    + rewrite lookup_insert_ne by done. rewrite IH. split.
      * intros (index & Hin & Hkey & Hc). exists index.
        split; [|done]. apply elem_of_app. by left.
      * intros (index & Hin & Hkey & Hc). exists index. split; [|done].
        apply elem_of_app in Hin as [Hin|Hin]; [done|].
        apply list_elem_of_singleton in Hin as ->. done.
Qed.

Lemma lookup_perspectiveControls (n : nat) (key : string) (c : Photo.Control) :
  Photo.perspectiveControls n !! key = Some c ↔
  ∃ index, (index < n)%nat ∧
           key = "prs" +:+ pretty (index + 1)%nat ∧
           c = Photo.perspectiveControl (Z.of_nat n - 1) index.
Proof.
  unfold Photo.perspectiveControls. cbn zeta. rewrite lookup_reduce.
  split; intros (index & Hin & Hkey & Hc); exists index; (split; [|done]).
  - apply elem_of_seq in Hin. lia.
  - apply elem_of_seq. lia.
Qed.

Section Toggle.
Context `{Photo.Host}.

Lemma togglePerspective_on (p : Photo.t) (h : store) entries pending :
  deref h (Photo.perspectiveCoords p) = Some entries →
  Photo.canvas p = Some pending →
  Photo.togglePerspective (Some true) (p, h) =
    (Done tt,
     (Photo.set_canvas (Some (S pending))
        (Photo.set_controls (Photo.perspectiveControls (length entries))
           (Photo.set_mode true p)), h)).
Proof.
  intros Hentries Hcanvas. unfold Photo.togglePerspective. cbn [default].
  rewrite (bind_done _ _ _ tt (Photo.set_mode true p, h)) by reflexivity.
  erewrite (bind_done _ _ _ tt
              (Photo.set_controls (Photo.perspectiveControls (length entries))
                 (Photo.set_mode true p), h)).
  - unfold Photo.requestRenderAll. cbn. by rewrite Hcanvas.
  - unfold bind, get, id. cbv beta iota.
    cbn [fst snd Photo.set_mode Photo.perspectiveCoords]. by rewrite Hentries.
Qed.

End Toggle.

(** C6 (as amended).  No index is ever validated and no error is raised
    for one.  [togglePerspective(true)] installs one control per existing
    control point, under the keys [prs1] ... [prsN], each bound to its own
    in-range index, and no other control.  The handler of such a control
    takes no index and checks none: called with event data and a transform
    it runs the action of its point and returns what that returns, on
    whatever state it finds; the wrapper returned by [_actionWrapper] does
    not consult its [anchorIndex], and returns [undefined] without calling
    the handler when the event data or the transform is missing. *)
Theorem C6_controls_for_existing_points_only `{Runtime} `{Photo.Host}
    (p : Photo.t) (h : store) (entries : list point) (pending : nat) :
  deref h (Photo.perspectiveCoords p) = Some entries →
  Photo.canvas p = Some pending →
  ∃ p',
    Photo.togglePerspective (Some true) (p, h) = (Done tt, (p', h)) ∧
    (∀ index, (index < length entries)%nat →
       ∃ anchorIndex,
         Photo.action <$> Photo.controls p' !! ("prs" +:+ pretty (index + 1)%nat)
           = Some (Photo.PerspectiveAction anchorIndex index)) ∧
    (∀ key c, Photo.controls p' !! key = Some c →
       ∃ index anchorIndex,
         (index < length entries)%nat ∧ key = "prs" +:+ pretty (index + 1)%nat ∧
         Photo.action c = Photo.PerspectiveAction anchorIndex index ∧
         (∀ eventData transform x y (s : Photo.State),
            Photo.actionHandler c (Some eventData) (Some transform) x y s
              = (do moved <- Photo.perspectiveAction index eventData transform x y;
                 ret (Some moved)) s) ∧
         (∀ eventData transform x y (s : Photo.State),
            eventData = None ∨ transform = None →
            Photo.actionHandler c eventData transform x y s = (Done None, s))) ∧
    (∀ anchorIndex anchorIndex' fn eventData transform x y (s : Photo.State),
       Photo._actionWrapper anchorIndex fn eventData transform x y s
         = Photo._actionWrapper anchorIndex' fn eventData transform x y s) ∧
    (∀ anchorIndex fn eventData transform x y (s : Photo.State),
       eventData = None ∨ transform = None →
       Photo._actionWrapper anchorIndex fn eventData transform x y s = (Done None, s)).
Proof.
  intros Hentries Hcanvas. eexists. split; [by apply togglePerspective_on|].
  cbn [Photo.controls Photo.set_canvas Photo.set_controls].
  assert (Hmissing : ∀ anchorIndex fn eventData transform x y (s : Photo.State),
            eventData = None ∨ transform = None →
            Photo._actionWrapper anchorIndex fn eventData transform x y s = (Done None, s)).
  { intros anchorIndex fn eventData transform x y s [-> | ->];
      unfold Photo._actionWrapper; [by destruct transform | done]. }
  split; [|split; [|split]].
  - intros index Hindex. eexists.
    rewrite (proj2 (lookup_perspectiveControls (length entries)
                      ("prs" +:+ pretty (index + 1)%nat)
                      (Photo.perspectiveControl (Z.of_nat (length entries) - 1) index)));
      [done|].
    exists index. split; [done|]. split; reflexivity.
  - intros key c Hc. apply lookup_perspectiveControls in Hc as (index & Hindex & -> & ->).
    eexists _, _. split; [done|]. split; [done|]. split; [reflexivity|]. split.
    + reflexivity.
    + intros eventData transform x y s Hnone.
      unfold Photo.actionHandler, Photo.perspectiveControl. cbn [Photo.action].
      by apply Hmissing.
  - reflexivity.
  - exact Hmissing.
Qed.

(** C6, counterexample to the claim as stated.  A request with an index
    outside the range of the current points can only come from a control
    that has outlived its point.  Here the controls are built for five
    points, and the fifth point is then removed from the shared list (as
    by [perspectiveCoords.pop()]), so that the list holds four points and
    the control [prs5] still holds the index 4.  A drag on that control is
    not rejected: the handler returns [true], and it re-normalises the
    four points, which all move; no error is raised. *)
Lemma C6_counterexample_index_not_validated :
  let five := draggedQuad 1 ++ [(num 100, num 120)] in
  let s5 : Photo.State :=
    (examplePhoto (num 200) (num 100) (Some 1%positive), {[ 1%positive := five ]}) in
  let editing := (@Photo.togglePerspective exampleHost (Some true) s5).2 in
  let s4 : Photo.State := (editing.1, <[ 1%positive := draggedQuad 1 ]> editing.2) in
  let stale := Photo.perspectiveControl 4 4 in
  let r := @Photo.actionHandler standardDisplay exampleHost stale
             (Some exampleEvent) (Some (Photo.mkTransform "prs5")) (num 10) (num 10) s4 in
  Photo.controls s4.1 !! "prs5" = Some stale ∧
  Photo.action stale = Photo.PerspectiveAction 3 4 ∧
  deref s4.2 (Photo.perspectiveCoords s4.1)
    = Some [(0, 0); (num 220, num (-10)); (num 200, num 100); (0, num 100)] ∧
  r.1 = Done (Some true) ∧
  r.1 ≠ Thrown InvalidControlPoint ∧
  deref r.2.2 (Photo.perspectiveCoords r.2.1)
    = Some [(0, num 10); (num 220, 0); (num 200, num 110); (0, num 110)].
Proof.
  cbv zeta. split; [by_evaluation|]. split; [reflexivity|].
  split; [by_evaluation|]. split; [by_evaluation|]. split; by_evaluation.
Qed.

Lemma C6_witness :
  let p := (draggedPhoto 1).1 in
  let h := (draggedPhoto 1).2 in
  deref h (Photo.perspectiveCoords p) = Some (draggedQuad 1) ∧
  Photo.canvas p = Some 0%nat ∧
  ∃ p',
    @Photo.togglePerspective exampleHost (Some true) (p, h) = (Done tt, (p', h)) ∧
    (∃ anchorIndex,
       Photo.action <$> Photo.controls p' !! "prs4"
         = Some (Photo.PerspectiveAction anchorIndex 3)) ∧
    Photo.controls p' !! "prs5" = None.
Proof.
  cbv zeta.
  assert (Hentries : deref (draggedPhoto 1).2 (Photo.perspectiveCoords (draggedPhoto 1).1)
                     = Some (draggedQuad 1)) by reflexivity.
  assert (Hcanvas : Photo.canvas (draggedPhoto 1).1 = Some 0%nat) by reflexivity.
  split; [exact Hentries|]. split; [exact Hcanvas|].
  destruct (@C6_controls_for_existing_points_only standardDisplay exampleHost
              _ _ _ _ Hentries Hcanvas) as (p' & Htoggle & Hin & Honly & _).
  exists p'. split; [exact Htoggle|]. split.
  - apply (Hin 3%nat). cbn. lia.
  - destruct (Photo.controls p' !! "prs5") as [c|] eqn:Hc; [|done].
    apply Honly in Hc as (index & anchorIndex & Hindex & Hkey & _).
    apply (inj (String.append "prs")) in Hkey.
    change "5" with (pretty 5%nat) in Hkey. apply (inj pretty) in Hkey.
    cbn in Hindex. lia.
Defined.

Section Drag.
Context `{Runtime} `{Photo.Host}.

Lemma alter_entries (f : list point → list point) (h : store) l entries :
  h !! l = Some entries → alter f l h = <[l := f entries]> h.
Proof.
  intros Hentries. apply map_eq. intros i.
  destruct (decide (l = i)) as [<-|Hne].
  - by rewrite lookup_alter_eq, lookup_insert_eq, Hentries.
  - by rewrite lookup_alter_ne, lookup_insert_ne.
Qed.

(** A drag handled for point [index] writes that entry, then re-normalises
    the whole list by the frame of the updated points; applying the
    filters afterwards does not touch the list when they spare it. *)
Lemma perspectiveAction_moves_point index eventData transform x y
    (p : Photo.t) (h : store) l entries :
  Photo.perspectiveCoords p = Some l → h !! l = Some entries →
  Forall (spares l) (Photo.filters p) →
  let local := FabricUtil.transformPoint (x, y)
                 (FabricUtil.invertTransform (Photo.calcTransformMatrix p)) false in
  let coord := ((px local + Photo.width p / 2) / Photo.scaleX p * devicePixelRatio,
                (py local + Photo.height p / 2) / Photo.scaleY p * devicePixelRatio) in
  let moved := <[index := coord]> entries in
  ∃ r p' h' d,
    Photo.perspectiveAction index eventData transform x y (p, h) = (r, (p', h')) ∧
    Photo._calcDimensions (p, <[l := moved]> h) = (Done d, (p, <[l := moved]> h)) ∧
    Photo.perspectiveCoords p' = Some l ∧
    h' !! l = Some (translate (Photo.left d) (Photo.top d) moved).
Proof.
  intros Hl Hentries Hspares local coord moved.
  assert (Hmoved : (<[l := moved]> h) !! l = Some moved) by apply lookup_insert_eq.
  destruct (_resetSizeAndPosition_eq None p (<[l := moved]> h) l moved Hl Hmoved)
    as (d & Hd & Hreset).
  rewrite insert_insert_eq in Hreset.
  destruct (applyFilters_footprint l (Photo.set_size d p)
              (<[l := translate (Photo.left d) (Photo.top d) moved]> h) Hspares)
    as (rendered & fs' & h' & Hrender & Hh').
  rewrite lookup_insert_eq in Hh'.
  exists (match rendered with Done _ => Done true | Thrown e => Thrown e end),
         (Photo.set_filters fs' (Photo.set_size d p)), h', d.
  split; [|split; [exact Hd | split; [by cbn | exact Hh']]].
  unfold Photo.perspectiveAction.
  rewrite (bind_done _ _ (p, h) (p, h) (p, h)) by reflexivity.
  cbn [fst snd]. rewrite Hl. rewrite (alter_entries _ h l entries Hentries).
  rewrite (bind_done _ _ _ tt (p, <[l := moved]> h)) by reflexivity.
  rewrite (bind_done _ _ _ _ _ Hreset).
  destruct rendered as [[]|e].
  - by rewrite (bind_done _ _ _ _ _ Hrender).
  - by rewrite (bind_thrown _ _ _ _ _ Hrender).
Qed.

End Drag.

(** ** The drag scenario, end to end *)

(** The 200 x 100 image is loaded, perspective mode is switched on, and the
    control [prs2] of corner 1, the one installed under that key, is
    dragged (its handler is called) to the canvas point that lies
    20 CSS pixels right of and 10 above the corner.  On a display with a
    device pixel ratio of 1 the list is normalised: its bounding box starts
    at the origin. *)
Example drag_scenario_standard :
  let loaded := (@Photo.getInitialPerspective standardDisplay exampleHost
                   (examplePhoto (num 200) (num 100) None, ∅)).2 in
  let editing := (@Photo.togglePerspective exampleHost (Some true) loaded).2 in
  let r := @Photo.actionHandler standardDisplay exampleHost (Photo.perspectiveControl 3 1)
             (Some exampleEvent) (Some (Photo.mkTransform "prs2"))
             (num 120) (num (-60)) editing in
  Photo.controls editing.1 !! "prs2" = Some (Photo.perspectiveControl 3 1) ∧
  r.1 = Done (Some true) ∧
  deref r.2.2 (Photo.perspectiveCoords r.2.1)
    = Some [(0, num 10); (num 220, 0); (num 200, num 110); (0, num 110)] ∧
  Photo.pathOffset r.2.1 = Some (0, num (-10)) ∧
  Photo.width r.2.1 = num 220 ∧ Photo.height r.2.1 = num 110.
Proof. cbv zeta. repeat split; by_evaluation. Qed.

(** On a display with a device pixel ratio of 2 the same drag leaves the
    dragged corner 10 device pixels above the origin. *)
Example drag_scenario_retina :
  let loaded := (@Photo.getInitialPerspective retinaDisplay exampleHost
                   (examplePhoto (num 200) (num 100) None, ∅)).2 in
  let editing := (@Photo.togglePerspective exampleHost (Some true) loaded).2 in
  let r := @Photo.actionHandler retinaDisplay exampleHost (Photo.perspectiveControl 3 1)
             (Some exampleEvent) (Some (Photo.mkTransform "prs2"))
             (num 120) (num (-60)) editing in
  Photo.controls editing.1 !! "prs2" = Some (Photo.perspectiveControl 3 1) ∧
  deref loaded.2 (Photo.perspectiveCoords loaded.1)
    = Some [(0, 0); (num 400, 0); (num 400, num 200); (0, num 200)] ∧
  r.1 = Done (Some true) ∧
  deref r.2.2 (Photo.perspectiveCoords r.2.1)
    = Some [(0, num 10); (num 440, num (-10)); (num 400, num 210); (0, num 210)] ∧
  Photo.pathOffset r.2.1 = Some (0, num (-10)) ∧
  Photo.width r.2.1 = num 220 ∧ Photo.height r.2.1 = num 110.
Proof. cbv zeta. repeat split; by_evaluation. Qed.

(* ================================================================= *)
(** * Further properties of the geometry *)

Lemma extent_bounds (vs : list Qc) (lo hi v : Qc) :
  extent vs lo hi → v ∈ vs → lo <= v ∧ v <= hi.
Proof.
  destruct vs as [|v0 vs]; [by intros _ ?%elem_of_nil|].
  intros [[_ Hlo] [_ Hhi]] Hv. auto.
Qed.

Lemma getPerspectiveBounds_encloses
    (f : Perspective.t) (h : store) (entries : list point) (p : point) :
  deref h (Perspective.perspectiveCoords f) = Some entries →
  p ∈ entries →
  ∃ b f',
    Perspective.getPerspectiveBounds None (f, h) = (Done b, (f', h)) ∧
    Perspective.bounds f' = b ∧
    Perspective.minX b <= px p ∧ px p <= Perspective.maxX b ∧
    Perspective.minY b <= py p ∧ py p <= Perspective.maxY b ∧
    Perspective.width b = Perspective.maxX b - Perspective.minX b ∧
    Perspective.height b = Perspective.maxY b - Perspective.minY b.
Proof.
  intros Hentries Hp.
  eexists _, _. split; [by apply getPerspectiveBounds_eq|].
  split; [done|]. cbn.
  pose proof (scan_extent px entries) as Hx.
  pose proof (scan_extent py entries) as Hy.
  destruct (extent_bounds _ _ _ (px p) Hx) as [Hx1 Hx2]; [by apply list_elem_of_fmap_2|].
  destruct (extent_bounds _ _ _ (py p) Hy) as [Hy1 Hy2]; [by apply list_elem_of_fmap_2|].
  repeat split; try done.
  - apply Math_abs_of_nonneg. apply extent_ordered in Hx. qc_lra.
  - apply Math_abs_of_nonneg. apply extent_ordered in Hy. qc_lra.
Qed.

(** X1.  The bounds that [getPerspectiveBounds] returns, and stores in
    [this.bounds], enclose every control point; the width and the height
    are the differences of the extremes themselves. *)
Theorem X1_bounds_enclose_points
    (f : Perspective.t) (h : store) (entries : list point) (p : point) :
  deref h (Perspective.perspectiveCoords f) = Some entries →
  p ∈ entries →
  ∃ b f',
    Perspective.getPerspectiveBounds None (f, h) = (Done b, (f', h)) ∧
    Perspective.bounds f' = b ∧
    Perspective.minX b <= px p ∧ px p <= Perspective.maxX b ∧
    Perspective.minY b <= py p ∧ py p <= Perspective.maxY b ∧
    Perspective.width b = Perspective.maxX b - Perspective.minX b ∧
    Perspective.height b = Perspective.maxY b - Perspective.minY b.
Proof. apply getPerspectiveBounds_encloses. Qed.

Lemma X1_witness :
  let f := exampleFilter false (Some 1%positive) in
  let h : store := {[ 1%positive := draggedQuad 1 ]} in
  deref h (Perspective.perspectiveCoords f) = Some (draggedQuad 1) ∧
  (num 220, num (-10)) ∈ draggedQuad 1 ∧
  ∃ b f',
    Perspective.getPerspectiveBounds None (f, h) = (Done b, (f', h)) ∧
    Perspective.bounds f' = b ∧
    Perspective.minX b <= num 220 ∧ num 220 <= Perspective.maxX b ∧
    Perspective.minY b <= num (-10) ∧ num (-10) <= Perspective.maxY b ∧
    Perspective.width b = Perspective.maxX b - Perspective.minX b ∧
    Perspective.height b = Perspective.maxY b - Perspective.minY b.
Proof.
  cbv zeta.
  assert (Hin : (num 220, num (-10)) ∈ draggedQuad 1) by by_evaluation.
  split; [reflexivity|]. split; [exact Hin|].
  apply (X1_bounds_enclose_points _ _ (draggedQuad 1) (num 220, num (-10)));
    [reflexivity | exact Hin].
Defined.

Lemma Qcdiv_lt_0 (v r : Qc) : 0 < r → v < 0 → v / r < 0.
Proof.
  intros Hr Hv. unfold Qcdiv.
  pose proof (Qcmult_lt_compat_r v 0 (/ r) (Qcinv_pos r Hr) Hv) as Hlt.
  by rewrite Qcmult_0_l in Hlt.
Qed.

Lemma Qcdiv_nonneg (v r : Qc) : 0 < r → 0 <= v → 0 <= v / r.
Proof.
  intros Hr Hv. pose proof (Qcdiv_le_mono r 0 v Hr Hv) as Hle.
  unfold Qcdiv in Hle at 1. by rewrite Qcmult_0_l in Hle.
Qed.

Lemma Math_abs_div (a b r : Qc) :
  0 < r → Math_abs (a / r - b / r) = Math_abs (a - b) / r.
Proof.
  intros Hr. replace (a / r - b / r) with ((a - b) / r) by (unfold Qcdiv; ring).
  unfold Math_abs. destruct (decide (a - b < 0)) as [Hneg|Hpos].
  - rewrite decide_True by (by apply Qcdiv_lt_0). unfold Qcdiv. ring.
  - rewrite decide_False; [done|]. apply Qcle_not_lt, Qcdiv_nonneg; [done|].
    by apply Qcnot_lt_le.
Qed.

Section CssPixels.
Context `{Runtime}.

Lemma max_in_css_pixels_x (entries : list point) :
  entries ≠ [] →
  or_zero (FabricUtil.max
             ((λ c, (px c / devicePixelRatio, py c / devicePixelRatio)) <$> entries) px)
    = or_zero (FabricUtil.max entries px) / devicePixelRatio.
Proof.
  intros Hne.
  rewrite (max_fmap (λ v, v / devicePixelRatio) _ px px);
    [| intros; apply Qcdiv_le_mono; [apply devicePixelRatio_positive | done] | done].
  destruct (max_spec px entries Hne) as (m & -> & _). cbn. by rewrite !or_zero_Some.
Qed.

Lemma max_in_css_pixels_y (entries : list point) :
  entries ≠ [] →
  or_zero (FabricUtil.max
             ((λ c, (px c / devicePixelRatio, py c / devicePixelRatio)) <$> entries) py)
    = or_zero (FabricUtil.max entries py) / devicePixelRatio.
Proof.
  intros Hne.
  rewrite (max_fmap (λ v, v / devicePixelRatio) _ py py);
    [| intros; apply Qcdiv_le_mono; [apply devicePixelRatio_positive | done] | done].
  destruct (max_spec py entries Hne) as (m & -> & _). cbn. by rewrite !or_zero_Some.
Qed.

(** The frame of the Photo in terms of the extremes of the stored
    coordinates. *)
Lemma _calcDimensions_in_css_pixels (p : Photo.t) (h : store) entries :
  deref h (Photo.perspectiveCoords p) = Some entries →
  Photo._calcDimensions (p, h) =
    (Done (Photo.mkDimensions
             (or_zero (FabricUtil.min entries px) / devicePixelRatio)
             (or_zero (FabricUtil.min entries py) / devicePixelRatio)
             (Math_abs (or_zero (FabricUtil.max entries px)
                        - or_zero (FabricUtil.min entries px)) / devicePixelRatio)
             (Math_abs (or_zero (FabricUtil.max entries py)
                        - or_zero (FabricUtil.min entries py)) / devicePixelRatio)),
     (p, h)).
Proof.
  intros Hentries. rewrite (_calcDimensions_eq p h entries Hentries). cbn zeta.
  destruct entries as [|e entries].
  - cbn. do 2 f_equal. unfold or_zero, Math_abs, Qcdiv.
    f_equal; apply Qc_is_canon; reflexivity.
  - rewrite min_in_css_pixels_x, min_in_css_pixels_y,
            max_in_css_pixels_x, max_in_css_pixels_y by done.
    by rewrite !Math_abs_div by apply devicePixelRatio_positive.
Qed.

End CssPixels.

(** X2.  On a shared coordinate list, the frame of the Photo is computed
    from the extremes that the filter finds: left and top are the filter's
    [minX] and [minY] divided by the device pixel ratio, and width and
    height are the absolute differences of the quotients of the
    extremes. *)
Theorem X2_photo_frame_from_filter_extremes `{Runtime}
    (p : Photo.t) (f : Perspective.t) (h : store) (entries : list point) :
  deref h (Photo.perspectiveCoords p) = Some entries →
  deref h (Perspective.perspectiveCoords f) = Some entries →
  ∃ d b,
    (Photo._calcDimensions (p, h)).1 = Done d ∧
    (Perspective.getPerspectiveBounds None (f, h)).1 = Done b ∧
    Photo.left d = Perspective.minX b / devicePixelRatio ∧
    Photo.top d = Perspective.minY b / devicePixelRatio ∧
    Photo.dim_width d =
      Math_abs (Perspective.maxX b / devicePixelRatio
                - Perspective.minX b / devicePixelRatio) ∧
    Photo.dim_height d =
      Math_abs (Perspective.maxY b / devicePixelRatio
                - Perspective.minY b / devicePixelRatio).
Proof.
  intros Hp Hf.
  rewrite (_calcDimensions_in_css_pixels p h entries Hp),
          (getPerspectiveBounds_eq None f h entries Hf).
  eexists _, _. split; [reflexivity|]. split; [reflexivity|].
  cbn [Photo.left Photo.top Photo.dim_width Photo.dim_height
       Perspective.minX Perspective.maxX Perspective.minY Perspective.maxY].
  by rewrite !Math_abs_div by apply devicePixelRatio_positive.
Qed.

Lemma X2_witness :
  let p := (draggedPhoto (num 2)).1 in
  let h := (draggedPhoto (num 2)).2 in
  let f := exampleFilter false (Some 1%positive) in
  deref h (Photo.perspectiveCoords p) = Some (draggedQuad (num 2)) ∧
  deref h (Perspective.perspectiveCoords f) = Some (draggedQuad (num 2)) ∧
  ∃ d b,
    (@Photo._calcDimensions retinaDisplay (p, h)).1 = Done d ∧
    (Perspective.getPerspectiveBounds None (f, h)).1 = Done b ∧
    Photo.left d = Perspective.minX b / @devicePixelRatio retinaDisplay ∧
    Photo.top d = Perspective.minY b / @devicePixelRatio retinaDisplay ∧
    Photo.dim_width d =
      Math_abs (Perspective.maxX b / @devicePixelRatio retinaDisplay
                - Perspective.minX b / @devicePixelRatio retinaDisplay) ∧
    Photo.dim_height d =
      Math_abs (Perspective.maxY b / @devicePixelRatio retinaDisplay
                - Perspective.minY b / @devicePixelRatio retinaDisplay).
Proof.
  cbv zeta. split; [reflexivity|]. split; [reflexivity|].
  apply (@X2_photo_frame_from_filter_extremes retinaDisplay
           _ _ _ (draggedQuad (num 2))); reflexivity.
Defined.

(** X4.  Called with [apply = false], [_resetSizeAndPosition] leaves the
    coordinate list as it is, and the frame it stores on the Photo (path
    offset, width, height) is the frame of that list. *)
Theorem X4_reset_without_apply `{Runtime}
    (index : option Z) (p : Photo.t) (h : store) (entries : list point) :
  deref h (Photo.perspectiveCoords p) = Some entries →
  ∃ p1 d,
    Photo._resetSizeAndPosition index (Some false) (p, h) = (Done tt, (p1, h)) ∧
    Photo._calcDimensions (p1, h) = (Done d, (p1, h)) ∧
    Photo.perspectiveCoords p1 = Photo.perspectiveCoords p ∧
    Photo.pathOffset p1 = Some (Photo.left d, Photo.top d) ∧
    Photo.width p1 = Photo.dim_width d ∧
    Photo.height p1 = Photo.dim_height d.
Proof.
  intros Hentries.
  pose proof (_calcDimensions_eq p h entries Hentries) as Hd. cbn zeta in Hd.
  set (d := Photo.mkDimensions _ _ _ _) in Hd.
  exists (Photo.set_size d p), d. split; [|split].
  - unfold Photo._resetSizeAndPosition, Photo._setPositionDimensions.
    cbn [default].
    rewrite (bind_done _ _ _ d (Photo.set_size d p, h)); [done|].
    rewrite (bind_done _ _ _ _ _ Hd).
    by rewrite (bind_done _ _ _ tt (Photo.set_size d p, h)) by reflexivity.
  - by apply _calcDimensions_eq.
  - done.
Qed.

Lemma X4_witness :
  deref (draggedPhoto (num 2)).2 (Photo.perspectiveCoords (draggedPhoto (num 2)).1)
    = Some (draggedQuad (num 2)) ∧
  ∃ p1 d,
    @Photo._resetSizeAndPosition retinaDisplay None (Some false) (draggedPhoto (num 2))
      = (Done tt, (p1, (draggedPhoto (num 2)).2)) ∧
    @Photo._calcDimensions retinaDisplay (p1, (draggedPhoto (num 2)).2)
      = (Done d, (p1, (draggedPhoto (num 2)).2)) ∧
    Photo.perspectiveCoords p1 = Photo.perspectiveCoords (draggedPhoto (num 2)).1 ∧
    Photo.pathOffset p1 = Some (Photo.left d, Photo.top d) ∧
    Photo.width p1 = Photo.dim_width d ∧
    Photo.height p1 = Photo.dim_height d.
Proof.
  split; [reflexivity|].
  apply (@X4_reset_without_apply retinaDisplay None
           (draggedPhoto (num 2)).1 (draggedPhoto (num 2)).2 (draggedQuad (num 2)));
    reflexivity.
Defined.

(** X5.  On the filter, [getPerspectiveBounds] followed by
    [calculateCoordsByCorners] leaves as many control points as before, all
    of them inside the rectangle from (0, 0) to ([width], [height]) of the
    bounds just computed. *)
Theorem X5_normalised_points_lie_in_canvas
    (f : Perspective.t) (h : store) (l : loc) (entries : list point) :
  Perspective.perspectiveCoords f = Some l → h !! l = Some entries →
  ∃ b f1 h1 entries1,
    Perspective.getPerspectiveBounds None (f, h) = (Done b, (f1, h)) ∧
    Perspective.calculateCoordsByCorners None (f1, h) = (Done tt, (f1, h1)) ∧
    h1 !! l = Some entries1 ∧
    length entries1 = length entries ∧
    ∀ q, q ∈ entries1 →
      0 <= px q ∧ px q <= Perspective.width b ∧
      0 <= py q ∧ py q <= Perspective.height b.
Proof.
  intros Hl Hentries.
  assert (Hd : deref h (Perspective.perspectiveCoords f) = Some entries)
    by (by rewrite Hl).
  pose proof (getPerspectiveBounds_eq None f h entries Hd) as Hb. cbn zeta in Hb.
  set (b := Perspective.mkBounds _ _ _ _ _ _) in Hb.
  eexists b, _, _, _. split; [exact Hb|].
  split; [by apply calculateCoordsByCorners_eq|].
  split; [apply lookup_insert_eq|].
  split; [unfold translate; by rewrite length_fmap|].
  intros q Hq. unfold translate in Hq.
  apply list_elem_of_fmap in Hq as (p & -> & Hp).
  destruct (getPerspectiveBounds_encloses f h entries p Hd Hp)
    as (b' & f' & Hb' & _ & Hx1 & Hx2 & Hy1 & Hy2 & Hw & Hh).
  rewrite Hb in Hb'. injection Hb' as <- _.
  cbn [Perspective.bounds Perspective.set_bounds px py fst snd].
  rewrite Hw, Hh. repeat split; qc_lra.
Qed.

Lemma X5_witness :
  let f := exampleFilter true (Some 1%positive) in
  let h : store := {[ 1%positive := draggedQuad 1 ]} in
  Perspective.perspectiveCoords f = Some 1%positive ∧
  h !! 1%positive = Some (draggedQuad 1) ∧
  ∃ b f1 h1 entries1,
    Perspective.getPerspectiveBounds None (f, h) = (Done b, (f1, h)) ∧
    Perspective.calculateCoordsByCorners None (f1, h) = (Done tt, (f1, h1)) ∧
    h1 !! 1%positive = Some entries1 ∧
    length entries1 = length (draggedQuad 1) ∧
    ∀ q, q ∈ entries1 →
      0 <= px q ∧ px q <= Perspective.width b ∧
      0 <= py q ∧ py q <= Perspective.height b.
Proof.
  cbv zeta. split; [reflexivity|]. split; [reflexivity|].
  apply (X5_normalised_points_lie_in_canvas _ _ 1%positive (draggedQuad 1));
    reflexivity.
Defined.

(** X6.  Normalising on the filter is idempotent: a second round of
    [getPerspectiveBounds] and [calculateCoordsByCorners] finds the minimum
    at the origin and writes back the coordinates it found. *)
Theorem X6_second_normalisation_changes_nothing
    (f : Perspective.t) (h : store) (l : loc) (entries : list point) :
  Perspective.perspectiveCoords f = Some l → h !! l = Some entries →
  ∃ b f1 h1 b' f2,
    Perspective.getPerspectiveBounds None (f, h) = (Done b, (f1, h)) ∧
    Perspective.calculateCoordsByCorners None (f1, h) = (Done tt, (f1, h1)) ∧
    Perspective.getPerspectiveBounds None (f1, h1) = (Done b', (f2, h1)) ∧
    Perspective.calculateCoordsByCorners None (f2, h1) = (Done tt, (f2, h1)) ∧
    Perspective.minX b' = 0 ∧ Perspective.minY b' = 0 ∧
    Perspective.width b' = Perspective.width b ∧
    Perspective.height b' = Perspective.height b.
Proof.
  intros Hl Hentries.
  destruct (filter_offset_invariance f h l entries Hl Hentries)
    as (b & f1 & h1 & b' & f2 & Hb & Hcalc & Hb' & Hx & Hy & Hw & Hh).
  exists b, f1, h1, b', f2. repeat (split; [done|]).
  split; [|done].
  assert (Hd : deref h (Perspective.perspectiveCoords f) = Some entries)
    by (by rewrite Hl).
  rewrite (getPerspectiveBounds_eq None f h entries Hd) in Hb.
  injection Hb as Hbeq Hf1.
  assert (Hl1 : Perspective.perspectiveCoords f1 = Some l) by (by rewrite <-Hf1).
  rewrite (calculateCoordsByCorners_eq f1 h l entries Hl1 Hentries) in Hcalc.
  injection Hcalc as Hh1.
  assert (Hentries1 : h1 !! l = Some (translate (Perspective.minX (Perspective.bounds f1))
                                                (Perspective.minY (Perspective.bounds f1))
                                                entries))
    by (rewrite <-Hh1; apply lookup_insert_eq).
  assert (Hd1 : deref h1 (Perspective.perspectiveCoords f1) = Some _)
    by (rewrite Hl1; exact Hentries1).
  rewrite (getPerspectiveBounds_eq None f1 h1 _ Hd1) in Hb'.
  injection Hb' as Hb'eq Hf2.
  assert (Hl2 : Perspective.perspectiveCoords f2 = Some l) by (by rewrite <-Hf2).
  rewrite (calculateCoordsByCorners_eq f2 h1 l _ Hl2 Hentries1).
  do 2 f_equal.
  assert (Hbounds : Perspective.bounds f2 = b') by (by rewrite <-Hf2).
  rewrite Hbounds, Hx, Hy, translate_by_origin. by apply insert_id.
Qed.

Lemma X6_witness :
  let f := exampleFilter true (Some 1%positive) in
  let h : store := {[ 1%positive := draggedQuad 1 ]} in
  Perspective.perspectiveCoords f = Some 1%positive ∧
  h !! 1%positive = Some (draggedQuad 1) ∧
  ∃ b f1 h1 b' f2,
    Perspective.getPerspectiveBounds None (f, h) = (Done b, (f1, h)) ∧
    Perspective.calculateCoordsByCorners None (f1, h) = (Done tt, (f1, h1)) ∧
    Perspective.getPerspectiveBounds None (f1, h1) = (Done b', (f2, h1)) ∧
    Perspective.calculateCoordsByCorners None (f2, h1) = (Done tt, (f2, h1)) ∧
    Perspective.minX b' = 0 ∧ Perspective.minY b' = 0 ∧
    Perspective.width b' = Perspective.width b ∧
    Perspective.height b' = Perspective.height b.
Proof.
  cbv zeta. split; [reflexivity|]. split; [reflexivity|].
  apply (X6_second_normalisation_changes_nothing _ _ 1%positive (draggedQuad 1));
    reflexivity.
Defined.

(* ================================================================= *)
(** * Further properties of the filter constructor *)

(** X7.  Every Perspective filter constructed over an array scales it
    again: after two constructions with the pixel ratios [r1] and [r2] over
    the same array, each entry has been multiplied by [r1] and then by
    [r2], and both filters hold the array. *)
Theorem X7_constructions_compose `{Runtime}
    (P : loc) (r1 r2 : Qc) (rel1 rel2 : option bool)
    (entries : list point) (h : store) :
  h !! P = Some entries →
  ∃ f1 h1 f2 h2,
    Perspective.constructor (Some (Perspective.mkInit rel1 (Some r1) (Some P))) h
      = (Done f1, h1) ∧
    Perspective.constructor (Some (Perspective.mkInit rel2 (Some r2) (Some P))) h1
      = (Done f2, h2) ∧
    Perspective.perspectiveCoords f1 = Some P ∧
    Perspective.perspectiveCoords f2 = Some P ∧
    h2 !! P = Some (scale r2 (scale r1 entries)) ∧
    ∀ l, l ≠ P → h2 !! l = h !! l.
Proof.
  intros HP.
  eexists _, (<[P := scale r1 entries]> h), _,
          (<[P := scale r2 (scale r1 entries)]> (<[P := scale r1 entries]> h)).
  split; [|split; [|split; [|split; [|split]]]].
  - unfold Perspective.constructor, Perspective.applyPixelRatio. cbn. rewrite HP. done.
  - unfold Perspective.constructor, Perspective.applyPixelRatio. cbn.
    rewrite lookup_insert_eq. done.
  - done.
  - done.
  - apply lookup_insert_eq.
  - intros l Hl. by rewrite !lookup_insert_ne.
Qed.

Lemma X7_witness :
  let h : store := {[ 1%positive := draggedQuad 1 ]} in
  h !! 1%positive = Some (draggedQuad 1) ∧
  ∃ f1 h1 f2 h2,
    @Perspective.constructor retinaDisplay
      (Some (Perspective.mkInit None (Some (num 2)) (Some 1%positive))) h = (Done f1, h1) ∧
    @Perspective.constructor retinaDisplay
      (Some (Perspective.mkInit None (Some (num 3)) (Some 1%positive))) h1 = (Done f2, h2) ∧
    Perspective.perspectiveCoords f1 = Some 1%positive ∧
    Perspective.perspectiveCoords f2 = Some 1%positive ∧
    h2 !! 1%positive = Some (scale (num 3) (scale (num 2) (draggedQuad 1))) ∧
    ∀ l, l ≠ 1%positive → h2 !! l = h !! l.
Proof.
  cbv zeta. split; [reflexivity|].
  apply (@X7_constructions_compose retinaDisplay). reflexivity.
Defined.

(** X8.  A Perspective filter cannot be constructed without coordinates:
    with no options object, or with one that has no [perspectiveCoords],
    the constructor throws a [TypeError] (from [applyPixelRatio]) and the
    store is left as it was. *)
Theorem X8_constructor_needs_coordinates `{Runtime}
    (options : option Perspective.Init) (h : store) :
  (options ≫= Perspective.init_perspectiveCoords) = None →
  Perspective.constructor options h = (Thrown TypeError, h).
Proof.
  intros Hnone. unfold Perspective.constructor, Perspective.applyPixelRatio.
  destruct options as [o|]; cbn in *; [|done].
  by rewrite Hnone.
Qed.

Lemma X8_witness :
  let h : store := {[ 1%positive := draggedQuad 1 ]} in
  (Some (Perspective.mkInit (Some false) (Some (num 2)) None)
     ≫= Perspective.init_perspectiveCoords) = None ∧
  @Perspective.constructor retinaDisplay
    (Some (Perspective.mkInit (Some false) (Some (num 2)) None)) h
    = (Thrown TypeError, h) ∧
  @Perspective.constructor retinaDisplay None h = (Thrown TypeError, h).
Proof.
  cbv zeta. split; [reflexivity|].
  split; apply (@X8_constructor_needs_coordinates retinaDisplay); reflexivity.
Defined.

(* ================================================================= *)
(** * Further properties of a drag *)

Lemma positive_nonzero (r : Qc) : 0 < r → r ≠ 0.
Proof. intros Hr ->. by apply (Qclt_not_eq 0 0). Qed.

(** X9.  A drag handled for the control of entry [index], on a Photo whose
    filters spare the coordinate list, whose matrix is invertible and whose
    scale is not zero (so that the handler divides by no zero, which
    rationals and doubles treat differently).  The handler maps the pointer through the inverse of
    the object's matrix, moves the origin from the centre to the top left
    corner, divides by the scale and multiplies by the device pixel ratio;
    it writes the result to entry [index] and to no other entry, and then
    translates the whole list by the frame of the updated points.  Applying
    the filters afterwards leaves that list as it is, and the handler
    returns [true] unless applying the filters throws. *)
Theorem X9_drag_moves_one_point `{Runtime} `{Photo.Host}
    (index : nat) (eventData : Photo.EventData) (transform : Photo.Transform)
    (x y : Qc) (p : Photo.t) (h : store) (l : loc) (entries : list point) :
  Photo.perspectiveCoords p = Some l → h !! l = Some entries →
  Forall (spares l) (Photo.filters p) →
  FabricUtil.m0 (Photo.calcTransformMatrix p) * FabricUtil.m3 (Photo.calcTransformMatrix p)
    - FabricUtil.m1 (Photo.calcTransformMatrix p) * FabricUtil.m2 (Photo.calcTransformMatrix p)
    ≠ 0 →
  Photo.scaleX p ≠ 0 → Photo.scaleY p ≠ 0 →
  let local := FabricUtil.transformPoint (x, y)
                 (FabricUtil.invertTransform (Photo.calcTransformMatrix p)) false in
  let coord := ((px local + Photo.width p / 2) / Photo.scaleX p * devicePixelRatio,
                (py local + Photo.height p / 2) / Photo.scaleY p * devicePixelRatio) in
  ∃ r p' h' d,
    Photo.perspectiveAction index eventData transform x y (p, h) = (r, (p', h')) ∧
    (r = Done true ∨ ∃ e, r = Thrown e) ∧
    Photo._calcDimensions (p, <[l := <[index := coord]> entries]> h)
      = (Done d, (p, <[l := <[index := coord]> entries]> h)) ∧
    Photo.perspectiveCoords p' = Some l ∧
    Photo.pathOffset p' = Some (Photo.left d, Photo.top d) ∧
    Photo.width p' = Photo.dim_width d ∧ Photo.height p' = Photo.dim_height d ∧
    h' !! l = Some (translate (Photo.left d) (Photo.top d) (<[index := coord]> entries)).
Proof.
  intros Hl Hentries Hspares _ _ _ local coord.
  set (moved := <[index := coord]> entries).
  assert (Hmoved : (<[l := moved]> h) !! l = Some moved) by apply lookup_insert_eq.
  destruct (_resetSizeAndPosition_eq None p (<[l := moved]> h) l moved Hl Hmoved)
    as (d & Hd & Hreset).
  rewrite insert_insert_eq in Hreset.
  destruct (applyFilters_footprint l (Photo.set_size d p)
              (<[l := translate (Photo.left d) (Photo.top d) moved]> h) Hspares)
    as (rendered & fs' & h' & Hrender & Hh').
  rewrite lookup_insert_eq in Hh'.
  exists (match rendered with Done _ => Done true | Thrown e => Thrown e end),
         (Photo.set_filters fs' (Photo.set_size d p)), h', d.
  split; [|split; [|split; [exact Hd|]]].
  - unfold Photo.perspectiveAction.
    rewrite (bind_done _ _ (p, h) (p, h) (p, h)) by reflexivity.
    cbn [fst snd]. rewrite Hl. rewrite (alter_entries _ h l entries Hentries).
    rewrite (bind_done _ _ _ tt (p, <[l := moved]> h)) by reflexivity.
    rewrite (bind_done _ _ _ _ _ Hreset).
    destruct rendered as [[]|e].
    + by rewrite (bind_done _ _ _ _ _ Hrender).
    + by rewrite (bind_thrown _ _ _ _ _ Hrender).
  - destruct rendered as [[]|e]; [by left | right; by eexists].
  - by repeat split.
Qed.

Lemma X9_witness :
  let p := (draggedPhoto 1).1 in
  let h := (draggedPhoto 1).2 in
  let local := FabricUtil.transformPoint (num 10, num 10)
                 (FabricUtil.invertTransform (@Photo.calcTransformMatrix exampleHost p))
                 false in
  let coord :=
    ((px local + Photo.width p / 2) / Photo.scaleX p * @devicePixelRatio standardDisplay,
     (py local + Photo.height p / 2) / Photo.scaleY p * @devicePixelRatio standardDisplay) in
  Photo.perspectiveCoords p = Some 1%positive ∧
  h !! 1%positive = Some (draggedQuad 1) ∧
  Forall (spares 1%positive) (Photo.filters p) ∧
  Photo.scaleX p ≠ 0 ∧ Photo.scaleY p ≠ 0 ∧
  coord = (num 110, num 60) ∧
  ∃ r p' h' d,
    @Photo.perspectiveAction standardDisplay exampleHost 0
      exampleEvent exampleTransform (num 10) (num 10) (p, h) = (r, (p', h')) ∧
    (r = Done true ∨ ∃ e, r = Thrown e) ∧
    @Photo._calcDimensions standardDisplay
      (p, <[1%positive := <[0%nat := coord]> (draggedQuad 1)]> h)
      = (Done d, (p, <[1%positive := <[0%nat := coord]> (draggedQuad 1)]> h)) ∧
    Photo.perspectiveCoords p' = Some 1%positive ∧
    Photo.pathOffset p' = Some (Photo.left d, Photo.top d) ∧
    Photo.width p' = Photo.dim_width d ∧ Photo.height p' = Photo.dim_height d ∧
    h' !! 1%positive
      = Some (translate (Photo.left d) (Photo.top d) (<[0%nat := coord]> (draggedQuad 1))).
Proof.
  cbv zeta.
  assert (Hsx : Photo.scaleX (draggedPhoto 1).1 ≠ 0) by by_evaluation.
  assert (Hsy : Photo.scaleY (draggedPhoto 1).1 ≠ 0) by by_evaluation.
  assert (Hspares : Forall (spares 1%positive) (Photo.filters (draggedPhoto 1).1))
    by apply Forall_nil_2.
  split; [reflexivity|]. split; [reflexivity|]. split; [exact Hspares|].
  split; [exact Hsx|]. split; [exact Hsy|]. split; [by_evaluation|].
  apply (@X9_drag_moves_one_point standardDisplay exampleHost
           0 exampleEvent exampleTransform (num 10) (num 10)
           (draggedPhoto 1).1 (draggedPhoto 1).2 1%positive (draggedQuad 1));
    [reflexivity | reflexivity | exact Hspares | by_evaluation | exact Hsx | exact Hsy].
Defined.

(* ================================================================= *)
(** * Further properties of the controls *)

Lemma size_reduce (lastControl : Z) (n : nat) :
  size (foldl (λ (acc : gmap string Photo.Control) index,
                 <[Photo.name (Photo.perspectiveControl lastControl index) :=
                     Photo.perspectiveControl lastControl index]> acc)
              ∅ (seq 0 n)) = n.
Proof.
  induction n as [|n IH]; [done|].
  rewrite seq_S, foldl_snoc. cbn [plus].
  rewrite map_size_insert_None; [by rewrite IH|].
  destruct (foldl _ ∅ (seq 0 n) !! _) as [c|] eqn:Hc; [|done].
  apply lookup_reduce in Hc as (index & Hin & Hname & _).
  apply control_name_inj in Hname as <-.
  apply elem_of_seq in Hin. lia.
Qed.

(** X10.  After [togglePerspective(true)] the Photo has exactly as many
    controls as control points, and the anchor captured by the control of
    point [index] is the cyclic predecessor of [index]: it is
    [index - 1] modulo the number of points, hence itself the index of a
    control point. *)
Theorem X10_one_control_per_point_with_cyclic_anchor `{Photo.Host}
    (p : Photo.t) (h : store) (entries : list point) (pending : nat) :
  deref h (Photo.perspectiveCoords p) = Some entries →
  Photo.canvas p = Some pending →
  ∃ p',
    Photo.togglePerspective (Some true) (p, h) = (Done tt, (p', h)) ∧
    size (Photo.controls p') = length entries ∧
    ∀ key c anchorIndex index,
      Photo.controls p' !! key = Some c →
      Photo.action c = Photo.PerspectiveAction anchorIndex index →
      (index < length entries)%nat ∧
      anchorIndex = ((Z.of_nat index - 1) `mod` Z.of_nat (length entries))%Z ∧
      (0 <= anchorIndex < Z.of_nat (length entries))%Z.
Proof.
  intros Hentries Hcanvas. eexists. split; [by apply togglePerspective_on|].
  cbn [Photo.controls Photo.set_canvas Photo.set_controls].
  split; [apply size_reduce|].
  intros key c anchorIndex index Hc Haction.
  apply lookup_perspectiveControls in Hc as (i & Hi & -> & ->).
  cbn in Haction. injection Haction as <- <-.
  split; [done|]. case_decide.
  - rewrite Z.mod_small by lia. lia.
  - assert (i = 0%nat) as -> by lia.
    replace (Z.of_nat 0 - 1)%Z with (-1)%Z by lia.
    rewrite <-(Z.mod_add _ 1) by lia.
    rewrite Z.mod_small by lia. lia.
Qed.

Lemma X10_witness :
  let p := (draggedPhoto 1).1 in
  let h := (draggedPhoto 1).2 in
  deref h (Photo.perspectiveCoords p) = Some (draggedQuad 1) ∧
  Photo.canvas p = Some 0%nat ∧
  ∃ p',
    @Photo.togglePerspective exampleHost (Some true) (p, h) = (Done tt, (p', h)) ∧
    size (Photo.controls p') = 4%nat.
Proof.
  cbv zeta. split; [reflexivity|]. split; [reflexivity|].
  destruct (@X10_one_control_per_point_with_cyclic_anchor exampleHost
              (draggedPhoto 1).1 (draggedPhoto 1).2 (draggedQuad 1) 0%nat
              eq_refl eq_refl) as (p' & Htoggle & Hsize & _).
  exists p'. split; [exact Htoggle | exact Hsize].
Defined.

Section ToggleFrame.
Context `{Photo.Host}.

Lemma requestRenderAll_frame (p : Photo.t) (h : store) :
  ∃ r p',
    Photo.requestRenderAll (p, h) = (r, (p', h)) ∧
    Photo.set_canvas (Photo.canvas p) p' = p ∧
    (r = Done tt ∨ (r = Thrown TypeError ∧ p' = p)).
Proof.
  unfold Photo.requestRenderAll. destruct p as [? ? ? ? ? ? ? ? ? ? [n|]]; cbn.
  - eexists _, _. split; [done|]. split; [done | by left].
  - eexists _, _. split; [done|]. split; [done | by right].
Qed.

Lemma togglePerspective_off (p : Photo.t) (h : store) pending :
  Photo.canvas p = Some pending →
  Photo.togglePerspective (Some false) (p, h) =
    (Done tt,
     (Photo.set_canvas (Some (S pending))
        (Photo.set_controls Photo.originalControls (Photo.set_mode false p)), h)).
Proof.
  intros Hcanvas. unfold Photo.togglePerspective. cbn [default].
  rewrite (bind_done _ _ _ tt (Photo.set_mode false p, h)) by reflexivity.
  rewrite (bind_done _ _ _ tt
             (Photo.set_controls Photo.originalControls (Photo.set_mode false p), h))
    by reflexivity.
  unfold Photo.requestRenderAll. cbn. by rewrite Hcanvas.
Qed.

Lemma togglePerspective_unloaded (p : Photo.t) (h : store) :
  Photo.perspectiveCoords p = None →
  Photo.togglePerspective (Some true) (p, h) = (Thrown TypeError, (Photo.set_mode true p, h)).
Proof.
  intros Hnone. unfold Photo.togglePerspective. cbn [default].
  rewrite (bind_done _ _ _ tt (Photo.set_mode true p, h)) by reflexivity.
  apply bind_thrown. unfold bind, get, id. cbv beta iota.
  cbn [fst snd Photo.set_mode Photo.perspectiveCoords]. by rewrite Hnone.
Qed.

End ToggleFrame.

(** X11.  Switching perspective mode never touches the geometry: whatever
    the mode and whether the call returns or throws, the store, the
    coordinate list, the size, the scale, the path offset and the filters
    of the Photo are as before; [perspectiveMode] is the requested mode
    and the layout is ['fit']. *)
Theorem X11_toggle_leaves_geometry_alone `{Photo.Host}
    (mode : option bool) (p : Photo.t) (h : store) :
  ∃ r p',
    Photo.togglePerspective mode (p, h) = (r, (p', h)) ∧
    Photo.perspectiveCoords p' = Photo.perspectiveCoords p ∧
    Photo.width p' = Photo.width p ∧ Photo.height p' = Photo.height p ∧
    Photo.scaleX p' = Photo.scaleX p ∧ Photo.scaleY p' = Photo.scaleY p ∧
    Photo.pathOffset p' = Photo.pathOffset p ∧
    Photo.filters p' = Photo.filters p ∧
    Photo.perspectiveMode p' = default true mode ∧
    Photo.layout p' = Some "fit".
Proof.
  unfold Photo.togglePerspective.
  rewrite (bind_done _ _ _ tt (Photo.set_mode (default true mode) p, h)) by reflexivity.
  set (p0 := Photo.set_mode (default true mode) p).
  assert (Hcontrols : ∃ r p1,
    (if default true mode
     then do s <- get;
          match deref s.2 (Photo.perspectiveCoords s.1) with
          | Some entries =>
              Photo.onPhoto (Photo.set_controls (Photo.perspectiveControls (length entries)))
          | None => throw TypeError
          end
     else Photo.onPhoto (Photo.set_controls Photo.originalControls)) (p0, h)
      = (r, (p1, h)) ∧
    ∃ cs, p1 = Photo.set_controls cs p0).
  { destruct (default true mode).
    - unfold bind, get. cbn [fst snd].
      destruct (deref h (Photo.perspectiveCoords p0)).
      + eexists _, _. split; [reflexivity|]. by eexists.
      + eexists _, p0. split; [reflexivity|]. exists (Photo.controls p0).
        by destruct p0.
    - eexists _, _. split; [reflexivity|]. by eexists. }
  destruct Hcontrols as (r & p1 & Hstep & cs & ->).
  destruct r as [[]|e].
  - rewrite (bind_done _ _ _ _ _ Hstep).
    destruct (requestRenderAll_frame (Photo.set_controls cs p0) h)
      as (r' & p' & -> & Hp' & _).
    exists r', p'. split; [done|].
    apply (f_equal Photo.perspectiveCoords) in Hp' as H1.
    apply (f_equal Photo.width) in Hp' as H2.
    apply (f_equal Photo.height) in Hp' as H3.
    apply (f_equal Photo.scaleX) in Hp' as H4.
    apply (f_equal Photo.scaleY) in Hp' as H5.
    apply (f_equal Photo.pathOffset) in Hp' as H6.
    apply (f_equal Photo.filters) in Hp' as H7.
    apply (f_equal Photo.perspectiveMode) in Hp' as H8.
    apply (f_equal Photo.layout) in Hp' as H9.
    cbn in *. by rewrite H1, H2, H3, H4, H5, H6, H7, H8, H9.
  - rewrite (bind_thrown _ _ _ _ _ Hstep). by eexists _, _.
Qed.

(** X12.  Switching perspective mode on, off and on again: switching off
    installs fabric's own controls and nothing else, and switching on
    again rebuilds the controls that the first switch built. *)
Theorem X12_toggle_off_and_on_again `{Photo.Host}
    (p : Photo.t) (h : store) (entries : list point) (pending : nat) :
  deref h (Photo.perspectiveCoords p) = Some entries →
  Photo.canvas p = Some pending →
  ∃ p1 p2 p3,
    Photo.togglePerspective (Some true) (p, h) = (Done tt, (p1, h)) ∧
    Photo.togglePerspective (Some false) (p1, h) = (Done tt, (p2, h)) ∧
    Photo.togglePerspective (Some true) (p2, h) = (Done tt, (p3, h)) ∧
    Photo.controls p2 = Photo.originalControls ∧
    Photo.perspectiveMode p2 = false ∧
    Photo.controls p3 = Photo.controls p1 ∧
    Photo.perspectiveMode p3 = true ∧
    Photo.canvas p3 = Some (pending + 3)%nat.
Proof.
  intros Hentries Hcanvas.
  eexists _, _, _. split; [by apply togglePerspective_on|].
  split; [by apply togglePerspective_off|].
  split; [by apply (togglePerspective_on _ _ entries)|].
  cbn. repeat split. f_equal. lia.
Qed.

Lemma X12_witness :
  let p := (draggedPhoto 1).1 in
  let h := (draggedPhoto 1).2 in
  deref h (Photo.perspectiveCoords p) = Some (draggedQuad 1) ∧
  Photo.canvas p = Some 0%nat ∧
  ∃ p1 p2 p3,
    @Photo.togglePerspective exampleHost (Some true) (p, h) = (Done tt, (p1, h)) ∧
    @Photo.togglePerspective exampleHost (Some false) (p1, h) = (Done tt, (p2, h)) ∧
    @Photo.togglePerspective exampleHost (Some true) (p2, h) = (Done tt, (p3, h)) ∧
    Photo.controls p2 = @Photo.originalControls exampleHost ∧
    Photo.perspectiveMode p2 = false ∧
    Photo.controls p3 = Photo.controls p1 ∧
    Photo.perspectiveMode p3 = true ∧
    Photo.canvas p3 = Some (0 + 3)%nat.
Proof.
  cbv zeta. split; [reflexivity|]. split; [reflexivity|].
  apply (@X12_toggle_off_and_on_again exampleHost _ _ (draggedQuad 1)); reflexivity.
Defined.

(** X13.  The toggle button pressed before the image has loaded: the first
    click throws a [TypeError], since there are no control points yet, but
    it has already switched [perspectiveMode] on; the controls are left
    as they were and no render is requested.  The next click therefore
    switches the mode off and succeeds, installing fabric's own controls. *)
Theorem X13_click_before_load `{Photo.Host}
    (p : Photo.t) (h : store) (pending : nat) :
  Photo.perspectiveCoords p = None →
  Photo.perspectiveMode p = false →
  Photo.canvas p = Some pending →
  ∃ p1 p2,
    App.toggleButton_click (p, h) = (Thrown TypeError, (p1, h)) ∧
    Photo.perspectiveMode p1 = true ∧
    Photo.controls p1 = Photo.controls p ∧
    Photo.canvas p1 = Some pending ∧
    App.toggleButton_click (p1, h) = (Done tt, (p2, h)) ∧
    Photo.perspectiveMode p2 = false ∧
    Photo.controls p2 = Photo.originalControls ∧
    Photo.perspectiveCoords p2 = None.
Proof.
  intros Hnone Hmode Hcanvas.
  exists (Photo.set_mode true p),
         (Photo.set_canvas (Some (S (S pending)))
            (Photo.set_controls Photo.originalControls
               (Photo.set_mode false (Photo.set_mode true p)))).
  split; [|split; [done|split; [done|split; [done|split; [|done]]]]].
  - unfold App.toggleButton_click.
    rewrite (bind_done _ _ (p, h) (p, h) (p, h)) by reflexivity.
    cbn [fst]. rewrite Hmode. cbn [negb].
    apply bind_thrown. by apply togglePerspective_unloaded.
  - unfold App.toggleButton_click.
    rewrite (bind_done _ _ _ (Photo.set_mode true p, h) (Photo.set_mode true p, h))
      by reflexivity.
    cbn [fst Photo.perspectiveMode Photo.set_mode negb].
    rewrite (bind_done _ _ _ tt _
               (togglePerspective_off (Photo.set_mode true p) h pending Hcanvas)).
    reflexivity.
Qed.

Lemma X13_witness :
  let p := examplePhoto (num 200) (num 100) None in
  Photo.perspectiveCoords p = None ∧
  Photo.perspectiveMode p = false ∧
  Photo.canvas p = Some 0%nat ∧
  ∃ p1 p2,
    @App.toggleButton_click exampleHost (p, ∅) = (Thrown TypeError, (p1, ∅)) ∧
    Photo.perspectiveMode p1 = true ∧
    Photo.controls p1 = Photo.controls p ∧
    Photo.canvas p1 = Some 0%nat ∧
    @App.toggleButton_click exampleHost (p1, ∅) = (Done tt, (p2, ∅)) ∧
    Photo.perspectiveMode p2 = false ∧
    Photo.controls p2 = @Photo.originalControls exampleHost ∧
    Photo.perspectiveCoords p2 = None.
Proof.
  cbv zeta. split; [reflexivity|]. split; [reflexivity|]. split; [reflexivity|].
  apply (@X13_click_before_load exampleHost); reflexivity.
Defined.

(* ================================================================= *)
(** * Further properties of the overlay and of the fill *)

(** X14.  What [render] draws for the control of entry [index], on a
    Photo that is on a canvas.  In the frame moved to ([left], [top]) and
    rotated by the angle of the object, a line is stroked from the origin
    to the difference between the next entry and the control's own entry,
    times the scale factors; the next entry of the last one is the first.
    Then the handle is drawn as a filled and stroked circle of radius 4
    around the origin, and the frame is restored.  The stroke colour is set
    a second time except for the last entry. *)
Theorem X14_guide_points_to_the_cyclic_successor `{Runtime}
    (index : nat) (p : Photo.t) (h : store) (entries : list point)
    (coord next : point) (left top angle zoom : Qc) (pending : nat)
    (calls : list CanvasCall) :
  deref h (Photo.perspectiveCoords p) = Some entries →
  Photo.canvas p = Some pending →
  entries !! index = Some coord →
  entries !! ((index + 1) `mod` length entries)%nat = Some next →
  Photo.render index coord left top p h angle zoom calls =
    (Done tt,
     [ctx_restore; ctx_stroke; ctx_fill; ctx_fillStyle "green"; ctx_closePath;
      ctx_arc 0 0 (1 + 1 + 1 + 1); ctx_beginPath; ctx_stroke;
      ctx_lineTo ((px next - px coord) * px (Photo.scalar p zoom))
                 ((py next - py coord) * py (Photo.scalar p zoom))]
     ++ (if decide (index + 1 < length entries)%nat then [ctx_strokeStyle "green"] else [])
     ++ [ctx_strokeStyle "green"; ctx_moveTo 0 0; ctx_beginPath; ctx_rotate angle;
         ctx_translate left top; ctx_save]
     ++ calls).
Proof.
  intros Hentries Hcanvas Hcoord Hnext.
  assert (Hindex : (index < length entries)%nat) by (by eapply lookup_lt_Some).
  unfold Photo.render. rewrite Hcanvas, Hentries.
  destruct (entries !! (index + 1)%nat) as [next'|] eqn:Hsucc.
  - assert (Hlt : (index + 1 < length entries)%nat) by (by eapply lookup_lt_Some).
    rewrite Nat.mod_small in Hnext by done. rewrite Hsucc in Hnext.
    injection Hnext as ->. by rewrite decide_True by done.
  - apply lookup_ge_None in Hsucc.
    assert (Heq : (index + 1)%nat = length entries) by lia.
    rewrite Heq, Nat.Div0.mod_same in Hnext. rewrite Hnext.
    by rewrite decide_False by lia.
Qed.

Lemma X14_witness :
  let p := (draggedPhoto 1).1 in
  let h := (draggedPhoto 1).2 in
  deref h (Photo.perspectiveCoords p) = Some (draggedQuad 1) ∧
  Photo.canvas p = Some 0%nat ∧
  draggedQuad 1 !! 3%nat = Some (0, num 100) ∧
  draggedQuad 1 !! ((3 + 1) `mod` length (draggedQuad 1))%nat = Some (0, 0) ∧
  @Photo.render standardDisplay 3 (0, num 100) (num 5) (num 7) p h 0 1 [] =
    (Done tt,
     [ctx_restore; ctx_stroke; ctx_fill; ctx_fillStyle "green"; ctx_closePath;
      ctx_arc 0 0 (1 + 1 + 1 + 1); ctx_beginPath; ctx_stroke;
      ctx_lineTo ((px (0, 0) - px (0, num 100)) * px (@Photo.scalar standardDisplay p 1))
                 ((py (0, 0) - py (0, num 100)) * py (@Photo.scalar standardDisplay p 1))]
     ++ (if decide (3 + 1 < length (draggedQuad 1))%nat
         then [ctx_strokeStyle "green"] else [])
     ++ [ctx_strokeStyle "green"; ctx_moveTo 0 0; ctx_beginPath; ctx_rotate 0;
         ctx_translate (num 5) (num 7); ctx_save]
     ++ []).
Proof.
  cbv zeta.
  assert (Hcoord : draggedQuad 1 !! 3%nat = Some (0, num 100)) by by_evaluation.
  assert (Hnext : draggedQuad 1 !! ((3 + 1) `mod` length (draggedQuad 1))%nat = Some (0, 0))
    by by_evaluation.
  split; [reflexivity|]. split; [reflexivity|]. split; [exact Hcoord|].
  split; [exact Hnext|].
  apply (@X14_guide_points_to_the_cyclic_successor standardDisplay 3 (draggedPhoto 1).1
           (draggedPhoto 1).2 (draggedQuad 1) (0, num 100) (0, 0) (num 5) (num 7) 0 1
           0%nat []); [reflexivity | reflexivity | exact Hcoord | exact Hnext].
Defined.

Lemma Qcdiv_same (a : Qc) : 0 < a → a / a = 1.
Proof. intros Ha. field. by apply positive_nonzero. Qed.

Lemma Math_min_bound (a b : Qc) :
  Math_min a b <= a ∧ Math_min a b <= b ∧ (Math_min a b = a ∨ Math_min a b = b).
Proof.
  unfold Math_min. destruct (decide (b < a)) as [Hlt|Hge].
  - split; [by apply Qclt_le_weak|]. split; [apply Qcle_refl | by right].
  - split; [apply Qcle_refl|]. split; [by apply Qcnot_lt_le | by left].
Qed.

(** X15.  [_renderFill] draws the element once, between [save] and
    [restore], after moving the origin to the top left corner of the frame.
    The element, of positive size, is drawn scaled by one factor on both
    axes; the factor is the smaller of the two ratios of frame to element,
    so it exceeds neither.  An element that has the size of the frame is
    drawn unscaled over the whole frame. *)
Theorem X15_fill_is_scaled_to_fit
    (el : Element) (p : Photo.t) (calls : list CanvasCall) :
  let elWidth := or_else (naturalWidth el) (element_width el) in
  let elHeight := or_else (naturalHeight el) (element_height el) in
  0 < elWidth → 0 < elHeight →
  ∃ scale,
    Photo._renderFill (Some el) p calls =
      (Done tt,
       ctx_restore
         :: ctx_drawImage (Photo.width p / 2 - elWidth / 2 * scale)
                          (Photo.height p / 2 - elHeight / 2 * scale)
                          (elWidth * scale) (elHeight * scale)
         :: ctx_translate (- Photo.width p / 2) (- Photo.height p / 2)
         :: ctx_save :: calls) ∧
    scale <= Photo.width p / elWidth ∧
    scale <= Photo.height p / elHeight ∧
    (scale = Photo.width p / elWidth ∨ scale = Photo.height p / elHeight) ∧
    (elWidth = Photo.width p → elHeight = Photo.height p →
     Photo._renderFill (Some el) p calls =
       (Done tt,
        ctx_restore :: ctx_drawImage 0 0 (Photo.width p) (Photo.height p)
          :: ctx_translate (- Photo.width p / 2) (- Photo.height p / 2)
          :: ctx_save :: calls)).
Proof.
  intros elWidth elHeight Hw Hh.
  exists (Math_min (Photo.width p / elWidth) (Photo.height p / elHeight)).
  split; [reflexivity|].
  destruct (Math_min_bound (Photo.width p / elWidth) (Photo.height p / elHeight))
    as (Hle1 & Hle2 & Hone).
  split; [exact Hle1|]. split; [exact Hle2|]. split; [exact Hone|].
  intros Hsamew Hsameh. unfold Photo._renderFill. fold elWidth elHeight.
  rewrite <- Hsamew, <- Hsameh, !Qcdiv_same by done.
  assert (Hone' : Math_min 1 1 = 1) by reflexivity. rewrite Hone'.
  assert (Hzero : ∀ a : Qc, a / 2 - a / 2 * 1 = 0) by (intros; field; discriminate).
  by rewrite !Hzero, !Qcmult_1_r.
Qed.

Lemma X15_witness :
  let el := mkElement (Some (num 200)) (num 40) (Some (num 100)) (num 10) in
  let p := examplePhoto (num 200) (num 100) None in
  0 < or_else (naturalWidth el) (element_width el) ∧
  0 < or_else (naturalHeight el) (element_height el) ∧
  ∃ scale,
    Photo._renderFill (Some el) p [] =
      (Done tt,
       [ctx_restore;
        ctx_drawImage
          (Photo.width p / 2 - or_else (naturalWidth el) (element_width el) / 2 * scale)
          (Photo.height p / 2 - or_else (naturalHeight el) (element_height el) / 2 * scale)
          (or_else (naturalWidth el) (element_width el) * scale)
          (or_else (naturalHeight el) (element_height el) * scale);
        ctx_translate (- Photo.width p / 2) (- Photo.height p / 2); ctx_save]) ∧
    scale <= Photo.width p / or_else (naturalWidth el) (element_width el) ∧
    scale <= Photo.height p / or_else (naturalHeight el) (element_height el) ∧
    (scale = Photo.width p / or_else (naturalWidth el) (element_width el) ∨
     scale = Photo.height p / or_else (naturalHeight el) (element_height el)) ∧
    Photo._renderFill (Some el) p [] =
      (Done tt,
       [ctx_restore; ctx_drawImage 0 0 (Photo.width p) (Photo.height p);
        ctx_translate (- Photo.width p / 2) (- Photo.height p / 2); ctx_save]).
Proof.
  cbv zeta.
  set (el := mkElement (Some (num 200)) (num 40) (Some (num 100)) (num 10)).
  set (p := examplePhoto (num 200) (num 100) None).
  assert (Hw : 0 < or_else (naturalWidth el) (element_width el)) by reflexivity.
  assert (Hh : 0 < or_else (naturalHeight el) (element_height el)) by reflexivity.
  split; [exact Hw|]. split; [exact Hh|].
  destruct (X15_fill_is_scaled_to_fit el p [] Hw Hh)
    as (scale & Htrace & Hle1 & Hle2 & Hone & Hsame).
  exists scale. split; [exact Htrace|]. split; [exact Hle1|]. split; [exact Hle2|].
  split; [exact Hone|]. apply Hsame; by_evaluation.
Defined.

(* ================================================================= *)
(** * Further properties of the render pass *)

Lemma issue_issue (calls1 calls2 : list GLCall) (slots1 slots2 : gset string) (o : Options) :
  issue calls2 slots2 (issue calls1 slots1 o) = issue (calls2 ++ calls1) (slots2 ∪ slots1) o.
Proof.
  unfold issue. cbn [webgl pass originalTexture sourceTexture targetTexture sourceWidth
       sourceHeight destinationWidth destinationHeight canvas_width
       canvas_height vertexBuffers context].
  f_equal; [by rewrite (assoc_L (∪)) | by rewrite app_assoc].
Qed.

Lemma issue_kept (calls : list GLCall) (slots : gset string) (o : Options) :
  slots ⊆ vertexBuffers o → issue calls slots o = issue calls ∅ o.
Proof.
  intros Hslots. unfold issue. f_equal.
  rewrite (left_id_L ∅ (∪)). by apply subseteq_union_1_L.
Qed.

Lemma gl_eq (c : GLCall) (o : Options) : Perspective.gl c o = (Done tt, issue [c] ∅ o).
Proof.
  unfold Perspective.gl, modify, issue. by rewrite (left_id_L ∅ (∪)).
Qed.

Lemma keepBuffer_eq (slot : string) (o : Options) :
  Perspective.keepBuffer slot o = (Done tt, issue [] {[slot]} o).
Proof. reflexivity. Qed.

(** One call in a sequence. *)
Lemma gl_then {A} (c : GLCall) (k : unit → M Options A) (o : Options) :
  bind (Perspective.gl c) k o = k tt (issue [c] ∅ o).
Proof. apply bind_done, gl_eq. Qed.

Ltac gl_steps :=
  repeat first
    [ rewrite gl_then
    | rewrite gl_eq
    | rewrite issue_issue ];
  cbn [app].

Lemma clear__eq (o : Options) :
  Perspective.clear_ o = (Done tt, issue [clear; clearColor 0 0 0 0] ∅ o).
Proof.
  unfold Perspective.clear_. gl_steps. by rewrite (left_id_L ∅ (∪)).
Qed.

Lemma indexBuffer_eq (data : list N) (o : Options) :
  Perspective.indexBuffer data o =
    (Done tt,
     issue [bufferIndices data; bindBuffer "ELEMENT_ARRAY_BUFFER" "indexBuffer";
            createBuffer "indexBuffer"] ∅ o).
Proof.
  unfold Perspective.indexBuffer. gl_steps. by rewrite !(left_id_L ∅ (∪)).
Qed.

Lemma bindTexture__eq (o : Options) :
  Perspective.bindTexture_ o =
    (Done tt,
     issue [texParameteri "TEXTURE_WRAP_T" "CLAMP_TO_EDGE";
            texParameteri "TEXTURE_WRAP_S" "CLAMP_TO_EDGE";
            texParameteri "TEXTURE_MIN_FILTER" "LINEAR";
            texParameteri "TEXTURE_MAG_FILTER" "LINEAR";
            bindTexture (boundTexture o)] ∅ o).
Proof.
  unfold Perspective.bindTexture_, boundTexture.
  rewrite (bind_done _ _ o o o) by reflexivity.
  destruct (pass o), (originalTexture o); gl_steps; by rewrite !(left_id_L ∅ (∪)).
Qed.

Lemma sendAttributeData_eq (data : list Qc) (type : string) (o : Options) :
  let slot := type +:+ "vertexBuffer" in
  Perspective.sendAttributeData data type o =
    (Done tt,
     issue (bufferData "ARRAY_BUFFER" data :: vertexAttribPointer type 2
              :: enableVertexAttribArray type :: bindBuffer "ARRAY_BUFFER" slot
              :: (if decide (slot ∈ vertexBuffers o) then [] else [createBuffer slot]))
           {[slot]} o).
Proof.
  intros slot. unfold Perspective.sendAttributeData.
  rewrite (bind_done _ _ o o o) by reflexivity. fold slot.
  destruct (decide (slot ∈ vertexBuffers o)) as [Hin|Hout].
  - rewrite (bind_done _ _ o tt o) by reflexivity. gl_steps.
    rewrite !(left_id_L ∅ (∪)).
    by rewrite (issue_kept _ {[slot]}) by (by apply singleton_subseteq_l).
  - rewrite (bind_done _ _ o tt (issue [createBuffer slot] {[slot]} o)).
    2:{ rewrite gl_then, keepBuffer_eq, issue_issue. by rewrite (right_id_L ∅ (∪)). }
    gl_steps. by rewrite !(right_id_L ∅ (∪)), ?(left_id_L ∅ (∪)).
Qed.

Lemma vertexBuffers_issue calls slots o :
  vertexBuffers (issue calls slots o) = slots ∪ vertexBuffers o.
Proof. reflexivity. Qed.

Lemma boundTexture_issue calls slots o : boundTexture (issue calls slots o) = boundTexture o.
Proof. reflexivity. Qed.

Lemma canvas_width_issue calls slots o :
  canvas_width (issue calls slots o) = canvas_width o.
Proof. reflexivity. Qed.

Lemma canvas_height_issue calls slots o :
  canvas_height (issue calls slots o) = canvas_height o.
Proof. reflexivity. Qed.

Lemma destinationWidth_issue calls slots o :
  destinationWidth (issue calls slots o) = destinationWidth o.
Proof. reflexivity. Qed.

Lemma destinationHeight_issue calls slots o :
  destinationHeight (issue calls slots o) = destinationHeight o.
Proof. reflexivity. Qed.

Lemma created_after {A} (slot slot' : string) (slots : gset string) (x y : A) :
  slot ≠ slot' →
  (if decide (slot ∈ {[slot']} ∪ slots) then x else y)
    = (if decide (slot ∈ slots) then x else y).
Proof.
  intros Hne. apply decide_ext. rewrite elem_of_union, elem_of_singleton.
  split; [by intros [?|?] | by right].
Qed.

Section Trace.
Context `{Runtime}.

(** The calls of one successful [applyToWebGL], most recent first, for
    [o1] the pipeline state that [retrieveShader] leaves. *)
Lemma applyToWebGL_trace (f : Perspective.t) (h : store) (o o1 : Options)
    (shader : program) (corners : list point) (surface : Surface) (tess : Mesh) :
  retrieveShader o = (Done shader, o1) →
  deref h (Perspective.perspectiveCoords f) = Some corners →
  byCorners corners = Done surface →
  tessellate surface = Done tess →
  let indices := Uint16Array (flatten (faces tess)) in
  let fresh slot := if decide (slot ∈ vertexBuffers o1) then [] else [createBuffer slot] in
  Perspective.applyToWebGL (f, h, o) =
    (Done tt,
     (f, h,
      issue
        (drawElements (length indices) :: getExtension "OES_element_index_uint"
           :: viewport 0 0 (destinationWidth o1) (destinationHeight o1)
           :: uniform1f "uStepH" (1 / canvas_height o1)
           :: uniform1f "uStepW" (1 / canvas_width o1)
           :: bufferData "ARRAY_BUFFER" (Float32Array (flatten (uvs tess)))
           :: vertexAttribPointer "aUvs" 2 :: enableVertexAttribArray "aUvs"
           :: bindBuffer "ARRAY_BUFFER" "aUvsvertexBuffer"
           :: fresh "aUvsvertexBuffer"
           ++ bufferData "ARRAY_BUFFER" (Float32Array (flatten (points tess)))
           :: vertexAttribPointer "aPosition" 2 :: enableVertexAttribArray "aPosition"
           :: bindBuffer "ARRAY_BUFFER" "aPositionvertexBuffer"
           :: fresh "aPositionvertexBuffer"
           ++ [bufferIndices indices;
               bindBuffer "ELEMENT_ARRAY_BUFFER" "indexBuffer";
               createBuffer "indexBuffer";
               useProgram shader;
               texParameteri "TEXTURE_WRAP_T" "CLAMP_TO_EDGE";
               texParameteri "TEXTURE_WRAP_S" "CLAMP_TO_EDGE";
               texParameteri "TEXTURE_MIN_FILTER" "LINEAR";
               texParameteri "TEXTURE_MAG_FILTER" "LINEAR";
               bindTexture (boundTexture o1);
               clear; clearColor 0 0 0 0])
        {["aUvsvertexBuffer"; "aPositionvertexBuffer"]} o1)).
Proof.
  intros Hshader Hcorners Hsurface Htess indices fresh.
  unfold Perspective.applyToWebGL.
  rewrite (bind_done _ _ _ _ _ (onOptions_eq _ (f, h) _ _ _ Hshader)).
  rewrite (bind_done _ _ (f, h, o1) o1 (f, h, o1)) by reflexivity.
  rewrite (bind_done _ _ _ tess (f, h, o1)).
  2:{ apply onFilter_eq. unfold Perspective.generateSurface.
      by rewrite Hcorners, Hsurface, Htess. }
  fold indices. apply onOptions_eq.
  rewrite (bind_done _ _ _ _ _ (clear__eq o1)).
  rewrite (bind_done _ _ _ _ _ (bindTexture__eq _)), issue_issue, boundTexture_issue.
  rewrite gl_then, issue_issue.
  rewrite (bind_done _ _ _ _ _ (indexBuffer_eq _ _)), issue_issue.
  rewrite !(left_id_L ∅ (∪)). cbn [app].
  rewrite (bind_done _ _ _ _ _ (sendAttributeData_eq _ _ _)), issue_issue.
  rewrite vertexBuffers_issue, !(left_id_L ∅ (∪)), (right_id_L ∅ (∪)).
  cbn [String.append].
  rewrite (bind_done _ _ _ _ _ (sendAttributeData_eq _ _ _)), issue_issue.
  rewrite vertexBuffers_issue. cbn [String.append].
  rewrite created_after by discriminate.
  match goal with |- bind get _ ?s = _ => rewrite (bind_done _ _ s s s) by reflexivity end.
  rewrite canvas_width_issue, canvas_height_issue, destinationWidth_issue,
          destinationHeight_issue.
  gl_steps. by rewrite !(left_id_L ∅ (∪)).
Qed.
End Trace.

Lemma length_Uint16Array (indices : list N) :
  length (Uint16Array indices) = length indices.
Proof. apply length_fmap. Qed.

Lemma Uint16Array_range (indices : list N) :
  Forall (λ i, (i < 65536)%N) (Uint16Array indices).
Proof.
  unfold Uint16Array. apply Forall_fmap, Forall_true. intros i. cbn.
  by apply N.mod_lt.
Qed.

Lemma Uint16Array_exact (indices : list N) :
  Uint16Array indices = indices ↔ Forall (λ i, (i < 65536)%N) indices.
Proof.
  split.
  - intros <-. apply Uint16Array_range.
  - unfold Uint16Array. induction 1 as [|i indices Hi _ IH]; [done|].
    cbn. by rewrite IH, N.mod_small.
Qed.

(** X16.  A successful [applyToWebGL] ends with [drawElements], whose count
    is the number of indices in the faces of the mesh.  Before it, in this
    order: the indices are uploaded into a new element buffer, as 16-bit
    values (each is below 65536, and they are the indices of the faces
    exactly when all of those are below 65536); the vertex positions,
    rounded to single precision, are uploaded while the buffer of
    [aPosition] is bound and that attribute is enabled; and so are the UV
    pairs for [aUvs]. *)
Theorem X16_draw_call_counts_uploaded_indices `{Runtime}
    (f : Perspective.t) (h : store) (o o1 : Options)
    (shader : program) (corners : list point) (surface : Surface) (tess : Mesh) :
  retrieveShader o = (Done shader, o1) →
  deref h (Perspective.perspectiveCoords f) = Some corners →
  byCorners corners = Done surface →
  tessellate surface = Done tess →
  ∃ o2 data uniforms newUvs newPositions earlier,
    Perspective.applyToWebGL (f, h, o) = (Done tt, (f, h, o2)) ∧
    context o2 =
      drawElements (length data) :: uniforms
        ++ [bufferData "ARRAY_BUFFER" (Float32Array (flatten (uvs tess)));
            vertexAttribPointer "aUvs" 2; enableVertexAttribArray "aUvs";
            bindBuffer "ARRAY_BUFFER" "aUvsvertexBuffer"]
        ++ newUvs
        ++ [bufferData "ARRAY_BUFFER" (Float32Array (flatten (points tess)));
            vertexAttribPointer "aPosition" 2; enableVertexAttribArray "aPosition";
            bindBuffer "ARRAY_BUFFER" "aPositionvertexBuffer"]
        ++ newPositions
        ++ [bufferIndices data; bindBuffer "ELEMENT_ARRAY_BUFFER" "indexBuffer";
            createBuffer "indexBuffer"]
        ++ earlier ∧
    Forall (λ c, ∀ target slot, c ≠ bindBuffer target slot) (newUvs ++ newPositions) ∧
    length data = length (flatten (faces tess)) ∧
    Forall (λ i, (i < 65536)%N) data ∧
    (data = flatten (faces tess) ↔ Forall (λ i, (i < 65536)%N) (flatten (faces tess))).
Proof.
  intros Hshader Hcorners Hsurface Htess.
  pose proof (applyToWebGL_trace f h o o1 shader corners surface tess
                Hshader Hcorners Hsurface Htess) as Htrace.
  cbv zeta in Htrace.
  eexists _, (Uint16Array (flatten (faces tess))),
    [getExtension "OES_element_index_uint";
     viewport 0 0 (destinationWidth o1) (destinationHeight o1);
     uniform1f "uStepH" (1 / canvas_height o1);
     uniform1f "uStepW" (1 / canvas_width o1)],
    (if decide ("aUvsvertexBuffer" ∈ vertexBuffers o1)
     then [] else [createBuffer "aUvsvertexBuffer"]),
    (if decide ("aPositionvertexBuffer" ∈ vertexBuffers o1)
     then [] else [createBuffer "aPositionvertexBuffer"]),
    _.
  split; [exact Htrace|].
  split; [|split; [|split; [|split]]].
  - unfold issue. cbn [context].
    destruct (decide ("aUvsvertexBuffer" ∈ vertexBuffers o1)),
             (decide ("aPositionvertexBuffer" ∈ vertexBuffers o1)); reflexivity.
  - destruct (decide ("aUvsvertexBuffer" ∈ vertexBuffers o1)),
             (decide ("aPositionvertexBuffer" ∈ vertexBuffers o1));
      repeat constructor; discriminate.
  - apply length_Uint16Array.
  - apply Uint16Array_range.
  - apply Uint16Array_exact.
Qed.

Lemma X16_witness :
  let f := exampleFilter false (Some 1%positive) in
  let h : store := {[ 1%positive := draggedQuad 1 ]} in
  let o := examplePipeline true in
  let tess := quadMesh (draggedQuad 1) in
  @retrieveShader standardDisplay o = (Done 7%nat, o) ∧
  deref h (Perspective.perspectiveCoords f) = Some (draggedQuad 1) ∧
  ∃ o2 data uniforms newUvs newPositions earlier,
    @Perspective.applyToWebGL standardDisplay (f, h, o) = (Done tt, (f, h, o2)) ∧
    context o2 =
      drawElements (length data) :: uniforms
        ++ [bufferData "ARRAY_BUFFER" (@Float32Array standardDisplay (flatten (uvs tess)));
            vertexAttribPointer "aUvs" 2; enableVertexAttribArray "aUvs";
            bindBuffer "ARRAY_BUFFER" "aUvsvertexBuffer"]
        ++ newUvs
        ++ [bufferData "ARRAY_BUFFER" (@Float32Array standardDisplay (flatten (points tess)));
            vertexAttribPointer "aPosition" 2; enableVertexAttribArray "aPosition";
            bindBuffer "ARRAY_BUFFER" "aPositionvertexBuffer"]
        ++ newPositions
        ++ [bufferIndices data; bindBuffer "ELEMENT_ARRAY_BUFFER" "indexBuffer";
            createBuffer "indexBuffer"]
        ++ earlier ∧
    Forall (λ c, ∀ target slot, c ≠ bindBuffer target slot) (newUvs ++ newPositions) ∧
    length data = length (flatten (faces tess)) ∧
    Forall (λ i, (i < 65536)%N) data ∧
    (data = flatten (faces tess) ↔ Forall (λ i, (i < 65536)%N) (flatten (faces tess))).
Proof.
  cbv zeta. split; [reflexivity|]. split; [reflexivity|].
  apply (@X16_draw_call_counts_uploaded_indices standardDisplay
           (exampleFilter false (Some 1%positive)) {[ 1%positive := draggedQuad 1 ]}
           (examplePipeline true) (examplePipeline true) 7%nat
           (draggedQuad 1) (draggedQuad 1) (quadMesh (draggedQuad 1)));
    reflexivity.
Defined.

Lemma created_app (slot : string) (calls1 calls2 : list GLCall) :
  created slot (calls1 ++ calls2) = (created slot calls1 + created slot calls2)%nat.
Proof. unfold created. by rewrite list.filter_app, length_app. Qed.

Lemma created_cons (slot : string) (c : GLCall) (calls : list GLCall) :
  created slot (c :: calls)
    = ((if decide (c = createBuffer slot) then 1 else 0) + created slot calls)%nat.
Proof.
  unfold created. rewrite filter_cons. by destruct (decide (c = createBuffer slot)).
Qed.

Ltac count_created :=
  repeat (rewrite created_cons;
          first [ rewrite decide_True by reflexivity
                | rewrite decide_False by discriminate ]).

(** X17.  A successful [applyToWebGL] allocates a new index buffer on every
    pass, and a vertex buffer for positions or UVs only while the context
    has none in that slot: afterwards both slots are filled, so that a
    later pass on the same context allocates the index buffer alone.  No
    slot is ever emptied. *)
Theorem X17_buffers_allocated_by_a_pass `{Runtime}
    (f : Perspective.t) (h : store) (o o1 : Options)
    (shader : program) (corners : list point) (surface : Surface) (tess : Mesh) :
  retrieveShader o = (Done shader, o1) →
  deref h (Perspective.perspectiveCoords f) = Some corners →
  byCorners corners = Done surface →
  tessellate surface = Done tess →
  ∃ o2,
    Perspective.applyToWebGL (f, h, o) = (Done tt, (f, h, o2)) ∧
    created "indexBuffer" (context o2) = S (created "indexBuffer" (context o1)) ∧
    (∀ slot, slot ∈ ["aPositionvertexBuffer"; "aUvsvertexBuffer"] →
       slot ∈ vertexBuffers o2 ∧
       created slot (context o2) =
         ((if decide (slot ∈ vertexBuffers o1) then 0 else 1)
          + created slot (context o1))%nat) ∧
    (∀ slot, slot ∈ vertexBuffers o1 → slot ∈ vertexBuffers o2).
Proof.
  intros Hshader Hcorners Hsurface Htess.
  pose proof (applyToWebGL_trace f h o o1 shader corners surface tess
                Hshader Hcorners Hsurface Htess) as Htrace.
  cbv zeta in Htrace.
  eexists. split; [exact Htrace|].
  rewrite vertexBuffers_issue. unfold issue at 1 2. cbn [context].
  split; [|split].
  - rewrite created_app.
    destruct (decide ("aUvsvertexBuffer" ∈ vertexBuffers o1)),
             (decide ("aPositionvertexBuffer" ∈ vertexBuffers o1));
      cbn [app]; count_created; reflexivity.
  - intros slot Hslot. rewrite !elem_of_cons, elem_of_nil in Hslot.
    destruct Hslot as [->|[->|[]]].
    + split; [rewrite !elem_of_union, !elem_of_singleton; auto|].
      unfold issue. cbn [context]. rewrite created_app.
      destruct (decide ("aUvsvertexBuffer" ∈ vertexBuffers o1)),
               (decide ("aPositionvertexBuffer" ∈ vertexBuffers o1));
        cbn [app]; count_created; reflexivity.
    + split; [rewrite !elem_of_union, !elem_of_singleton; auto|].
      unfold issue. cbn [context]. rewrite created_app.
      destruct (decide ("aUvsvertexBuffer" ∈ vertexBuffers o1)),
               (decide ("aPositionvertexBuffer" ∈ vertexBuffers o1));
        cbn [app]; count_created; reflexivity.
  - intros slot Hslot. rewrite elem_of_union. by right.
Qed.

Lemma X17_witness :
  let f := exampleFilter false (Some 1%positive) in
  let h : store := {[ 1%positive := draggedQuad 1 ]} in
  let o := examplePipeline true in
  @retrieveShader standardDisplay o = (Done 7%nat, o) ∧
  deref h (Perspective.perspectiveCoords f) = Some (draggedQuad 1) ∧
  ∃ o2,
    @Perspective.applyToWebGL standardDisplay (f, h, o) = (Done tt, (f, h, o2)) ∧
    created "indexBuffer" (context o2) = S (created "indexBuffer" (context o)) ∧
    (∀ slot, slot ∈ ["aPositionvertexBuffer"; "aUvsvertexBuffer"] →
       slot ∈ vertexBuffers o2 ∧
       created slot (context o2) =
         ((if decide (slot ∈ vertexBuffers o) then 0 else 1)
          + created slot (context o))%nat) ∧
    (∀ slot, slot ∈ vertexBuffers o → slot ∈ vertexBuffers o2).
Proof.
  cbv zeta. split; [reflexivity|]. split; [reflexivity|].
  apply (@X17_buffers_allocated_by_a_pass standardDisplay
           (exampleFilter false (Some 1%positive)) {[ 1%positive := draggedQuad 1 ]}
           (examplePipeline true) (examplePipeline true) 7%nat
           (draggedQuad 1) (draggedQuad 1) (quadMesh (draggedQuad 1)));
    reflexivity.
Defined.

(* ================================================================= *)
(** * Further properties of loading *)

Section Loading.
Context `{Runtime} `{Photo.Host}.

(** [getInitialPerspective] in full: the list it allocates, the Photo and
    the store it leaves, whether or not applying the filters throws. *)
Lemma getInitialPerspective_seeds (p : Photo.t) (h : store) :
  (∀ f l, f ∈ Photo.filters p → Perspective.perspectiveCoords f = Some l → l ∈ dom h) →
  let corners :=
    scale devicePixelRatio
      [(0, 0); (Photo.getScaledWidth p, 0);
       (Photo.getScaledWidth p, Photo.getScaledHeight p);
       (0, Photo.getScaledHeight p)] in
  ∃ l (rendered : outcome unit) fs' h',
    h !! l = None ∧
    Photo.getInitialPerspective (p, h) =
      (match rendered with Done _ => Done l | Thrown e => Thrown e end,
       (Photo.set_filters fs' (Photo.set_perspectiveCoords l p), h')) ∧
    h' !! l = Some corners.
Proof.
  intros Hwf corners.
  set (l := fresh (dom h)).
  assert (Hfresh : h !! l = None) by (apply not_elem_of_dom, is_fresh).
  set (filter := Perspective.mk devicePixelRatio (Perspective.mkBounds 0 0 0 0 0 0)
                                false (Some l)).
  set (pMid := Photo.set_filters (Photo.filters p ++ [filter])
                                 (Photo.set_perspectiveCoords l p)).
  assert (Hspares : Forall (spares l) (Photo.filters pMid)).
  { subst pMid. cbn [Photo.filters Photo.set_filters]. apply Forall_app. split.
    - apply Forall_forall. intros f Hf Hl. apply list_elem_of_In in Hf.
      apply Hwf in Hl; [|done].
      by apply is_fresh in Hl.
    - by apply Forall_singleton. }
  destruct (applyFilters_footprint l pMid (<[l := corners]> h) Hspares)
    as (rendered & fs' & h' & Hrender & Hh').
  exists l, rendered, fs', h'.
  split; [done|]. split.
  - unfold Photo.getInitialPerspective.
    rewrite (bind_done _ _ (p, h) (p, h) (p, h)) by reflexivity.
    cbn [fst snd]. fold l.
    rewrite (bind_done _ _ _ tt
               (Photo.set_perspectiveCoords l p,
                <[l := [(0, 0); (Photo.getScaledWidth p, 0);
                        (Photo.getScaledWidth p, Photo.getScaledHeight p);
                        (0, Photo.getScaledHeight p)]]> h)) by reflexivity.
    rewrite (bind_done _ _ _ filter (Photo.set_perspectiveCoords l p, <[l := corners]> h)).
    2:{ unfold zoom. cbn [fst snd].
        unfold Perspective.constructor, Perspective.applyPixelRatio. cbn.
        rewrite lookup_insert_eq. by rewrite insert_insert_eq. }
    rewrite (bind_done _ _ _ tt (pMid, <[l := corners]> h)) by reflexivity.
    destruct rendered as [[]|e].
    + by rewrite (bind_done _ _ _ _ _ Hrender).
    + by rewrite (bind_thrown _ _ _ _ _ Hrender).
  - rewrite Hh'. apply lookup_insert_eq.
Qed.

End Loading.

(** X18.  The handler of ['image:loaded'] seeds the control points once.  A
    Photo that has a coordinate list keeps it, and every other field but
    the queue of render requests, which grows by one.  A Photo without one
    gets a new list holding the corners of the scaled image in device
    pixels; the render is requested when applying the filters succeeds and
    is not when that throws. *)
Theorem X18_image_loaded_seeds_once `{Runtime} `{Photo.Host}
    (p : Photo.t) (h : store) (pending : nat) :
  Photo.canvas p = Some pending →
  (∀ f l, f ∈ Photo.filters p → Perspective.perspectiveCoords f = Some l → l ∈ dom h) →
  (∀ l, Photo.perspectiveCoords p = Some l →
        Photo.imageLoaded (p, h) = (Done tt, (Photo.set_canvas (Some (S pending)) p, h))) ∧
  (Photo.perspectiveCoords p = None →
   ∃ r l p' h',
     Photo.imageLoaded (p, h) = (r, (p', h')) ∧
     h !! l = None ∧
     Photo.perspectiveCoords p' = Some l ∧
     h' !! l = Some (scale devicePixelRatio
                       [(0, 0); (Photo.getScaledWidth p, 0);
                        (Photo.getScaledWidth p, Photo.getScaledHeight p);
                        (0, Photo.getScaledHeight p)]) ∧
     (r = Done tt ∧ Photo.canvas p' = Some (S pending) ∨
      (∃ e, r = Thrown e) ∧ Photo.canvas p' = Some pending)).
Proof.
  intros Hcanvas Hwf. split.
  - intros l Hl. unfold Photo.imageLoaded.
    rewrite (bind_done _ _ (p, h) (p, h) (p, h)) by reflexivity.
    cbn [fst]. rewrite Hl.
    rewrite (bind_done _ _ (p, h) tt (p, h)) by reflexivity.
    unfold Photo.requestRenderAll. by rewrite Hcanvas.
  - intros Hnone.
    destruct (getInitialPerspective_seeds p h Hwf)
      as (l & rendered & fs' & h' & Hfresh & Hinit & Hh').
    unfold Photo.imageLoaded.
    rewrite (bind_done _ _ (p, h) (p, h) (p, h)) by reflexivity.
    cbn [fst]. rewrite Hnone.
    destruct rendered as [[]|e].
    + rewrite (bind_done _ _ (p, h) tt
                 (Photo.set_filters fs' (Photo.set_perspectiveCoords l p), h')).
      2:{ by rewrite (bind_done _ _ _ _ _ Hinit). }
      unfold Photo.requestRenderAll.
      cbn [Photo.canvas Photo.set_filters Photo.set_perspectiveCoords].
      rewrite Hcanvas.
      eexists _, l, _, h'. split; [reflexivity|]. split; [done|].
      split; [done|]. split; [done|]. by left.
    + rewrite (bind_thrown _ _ (p, h) e
                 (Photo.set_filters fs' (Photo.set_perspectiveCoords l p), h')).
      2:{ by rewrite (bind_thrown _ _ _ _ _ Hinit). }
      eexists _, l, _, h'. split; [reflexivity|]. split; [done|].
      split; [done|]. split; [done|]. right. split; [by eexists | done].
Qed.

Lemma X18_witness :
  let p := examplePhoto (num 200) (num 100) None in
  let h : store := ∅ in
  Photo.canvas p = Some 0%nat ∧
  (∀ f l, f ∈ Photo.filters p → Perspective.perspectiveCoords f = Some l → l ∈ dom h) ∧
  (∀ l, Photo.perspectiveCoords p = Some l →
        @Photo.imageLoaded retinaDisplay exampleHost (p, h)
          = (Done tt, (Photo.set_canvas (Some 1%nat) p, h))) ∧
  (Photo.perspectiveCoords p = None →
   ∃ r l p' h',
     @Photo.imageLoaded retinaDisplay exampleHost (p, h) = (r, (p', h')) ∧
     h !! l = None ∧
     Photo.perspectiveCoords p' = Some l ∧
     h' !! l = Some (scale (@devicePixelRatio retinaDisplay)
                       [(0, 0); (@Photo.getScaledWidth exampleHost p, 0);
                        (@Photo.getScaledWidth exampleHost p,
                         @Photo.getScaledHeight exampleHost p);
                        (0, @Photo.getScaledHeight exampleHost p)]) ∧
     (r = Done tt ∧ Photo.canvas p' = Some 1%nat ∨
      (∃ e, r = Thrown e) ∧ Photo.canvas p' = Some 0%nat)).
Proof.
  cbv zeta.
  assert (Hwf : ∀ f l, f ∈ Photo.filters (examplePhoto (num 200) (num 100) None) →
                       Perspective.perspectiveCoords f = Some l → l ∈ dom (∅ : store)).
  { intros f l Hf. cbn in Hf. by apply elem_of_nil in Hf. }
  split; [reflexivity|]. split; [exact Hwf|].
  apply (@X18_image_loaded_seeds_once retinaDisplay exampleHost
           (examplePhoto (num 200) (num 100) None) ∅ 0%nat eq_refl Hwf).
Defined.

(** The extremes of the corners of a [w] by [h] box scaled by [r]. *)
Lemma extent_of_box (r w h : Qc) :
  0 < r → 0 <= w → 0 <= h →
  let corners := scale r [(0, 0); (w, 0); (w, h); (0, h)] in
  or_zero (FabricUtil.min corners px) = 0 ∧
  or_zero (FabricUtil.max corners px) = w * r ∧
  or_zero (FabricUtil.min corners py) = 0 ∧
  or_zero (FabricUtil.max corners py) = h * r.
Proof.
  intros Hr Hw Hh corners.
  assert (Hzero : 0 * r = 0) by ring.
  pose proof (Qcmult_le_compat_r 0 w r Hw (Qclt_le_weak _ _ Hr)) as Hwr.
  pose proof (Qcmult_le_compat_r 0 h r Hh (Qclt_le_weak _ _ Hr)) as Hhr.
  rewrite Hzero in Hwr, Hhr.
  pose proof (scan_extent px corners) as [Hminx Hmaxx].
  pose proof (scan_extent py corners) as [Hminy Hmaxy].
  subst corners. unfold scale in *. cbn [fmap list_fmap px py fst snd] in *.
  rewrite Hzero in *.
  repeat split.
  - eapply is_min_unique; [exact Hminx|]. split; [by left|].
    intros v Hv. rewrite !elem_of_cons, elem_of_nil in Hv.
    destruct Hv as [->|[->|[->|[->|[]]]]]; done || apply Qcle_refl.
  - eapply is_max_unique; [exact Hmaxx|]. split; [right; by left|].
    intros v Hv. rewrite !elem_of_cons, elem_of_nil in Hv.
    destruct Hv as [->|[->|[->|[->|[]]]]]; done || apply Qcle_refl.
  - eapply is_min_unique; [exact Hminy|]. split; [by left|].
    intros v Hv. rewrite !elem_of_cons, elem_of_nil in Hv.
    destruct Hv as [->|[->|[->|[->|[]]]]]; done || apply Qcle_refl.
  - eapply is_max_unique; [exact Hmaxy|]. split; [right; right; by left|].
    intros v Hv. rewrite !elem_of_cons, elem_of_nil in Hv.
    destruct Hv as [->|[->|[->|[->|[]]]]]; done || apply Qcle_refl.
Qed.

(** X19.  The frame computed from the list that [getInitialPerspective]
    seeds starts at the origin on every display: left and top are 0, and
    width and height are the scaled width and height of the image taken
    through the device pixel ratio and back, that is multiplied by it (by
    the constructor of the filter) and divided by it (by
    [_calcDimensions]). *)
Theorem X19_initial_frame_starts_at_the_origin `{Runtime} `{Photo.Host}
    (p : Photo.t) (h : store) :
  (∀ f l, f ∈ Photo.filters p → Perspective.perspectiveCoords f = Some l → l ∈ dom h) →
  0 <= Photo.getScaledWidth p →
  0 <= Photo.getScaledHeight p →
  ∃ r p' h',
    Photo.getInitialPerspective (p, h) = (r, (p', h')) ∧
    Photo._calcDimensions (p', h') =
      (Done (Photo.mkDimensions 0 0
               (Photo.getScaledWidth p * devicePixelRatio / devicePixelRatio)
               (Photo.getScaledHeight p * devicePixelRatio / devicePixelRatio)),
       (p', h')).
Proof.
  intros Hwf Hw Hh.
  destruct (getInitialPerspective_seeds p h Hwf)
    as (l & rendered & fs' & h' & _ & Hinit & Hh').
  eexists _, _, _. split; [exact Hinit|].
  rewrite (_calcDimensions_in_css_pixels
             (Photo.set_filters fs' (Photo.set_perspectiveCoords l p)) h' _ Hh').
  destruct (extent_of_box devicePixelRatio _ _ devicePixelRatio_positive Hw Hh)
    as (-> & -> & -> & ->).
  pose proof devicePixelRatio_positive as Hr.
  pose proof (positive_nonzero _ Hr) as Hne.
  assert (Hwr : 0 <= Photo.getScaledWidth p * devicePixelRatio - 0).
  { pose proof (Qcmult_le_compat_r 0 _ devicePixelRatio Hw (Qclt_le_weak _ _ Hr)) as Hle.
    replace (0 * devicePixelRatio) with (0 : Qc) in Hle by ring. qc_lra. }
  assert (Hhr : 0 <= Photo.getScaledHeight p * devicePixelRatio - 0).
  { pose proof (Qcmult_le_compat_r 0 _ devicePixelRatio Hh (Qclt_le_weak _ _ Hr)) as Hle.
    replace (0 * devicePixelRatio) with (0 : Qc) in Hle by ring. qc_lra. }
  rewrite !Math_abs_of_nonneg by done.
  do 2 f_equal. f_equal; field; done.
Qed.

Lemma X19_witness :
  let p := examplePhoto (num 200) (num 100) None in
  let h : store := ∅ in
  (∀ f l, f ∈ Photo.filters p → Perspective.perspectiveCoords f = Some l → l ∈ dom h) ∧
  0 <= @Photo.getScaledWidth exampleHost p ∧
  0 <= @Photo.getScaledHeight exampleHost p ∧
  ∃ r p' h',
    @Photo.getInitialPerspective retinaDisplay exampleHost (p, h) = (r, (p', h')) ∧
    @Photo._calcDimensions retinaDisplay (p', h') =
      (Done (Photo.mkDimensions 0 0
               (@Photo.getScaledWidth exampleHost p * @devicePixelRatio retinaDisplay
                / @devicePixelRatio retinaDisplay)
               (@Photo.getScaledHeight exampleHost p * @devicePixelRatio retinaDisplay
                / @devicePixelRatio retinaDisplay)),
       (p', h')).
Proof.
  cbv zeta.
  assert (Hwf : ∀ f l, f ∈ Photo.filters (examplePhoto (num 200) (num 100) None) →
                       Perspective.perspectiveCoords f = Some l → l ∈ dom (∅ : store)).
  { intros f l Hf. cbn in Hf. by apply elem_of_nil in Hf. }
  assert (Hw : 0 <= @Photo.getScaledWidth exampleHost (examplePhoto (num 200) (num 100) None))
    by by_evaluation.
  assert (Hh : 0 <= @Photo.getScaledHeight exampleHost (examplePhoto (num 200) (num 100) None))
    by by_evaluation.
  split; [exact Hwf|]. split; [exact Hw|]. split; [exact Hh|].
  apply (@X19_initial_frame_starts_at_the_origin retinaDisplay exampleHost
           (examplePhoto (num 200) (num 100) None) ∅ Hwf Hw Hh).
Defined.

(* ================================================================= *)
(** * Further properties of the page *)

(** X20.  The wheel handler keeps the zoom level between 0.1 and 20,
    whatever the wheel delta, the previous zoom level and the value of the
    power; the label then shows a whole percentage between 10 and 2000. *)
Theorem X20_zoom_stays_in_range (pow : Qc → Qc → Qc) (deltaY zoom : Qc) :
  1 / num 10 <= App.wheelZoom pow deltaY zoom ∧
  App.wheelZoom pow deltaY zoom <= num 20 ∧
  ∃ n, App.updateZoomDisplay (App.wheelZoom pow deltaY zoom) = pretty n +:+ "%" ∧
       (10 ≤ n ≤ 2000)%Z.
Proof.
  assert (Horder : 1 / num 10 <= num 20) by by_evaluation.
  assert (Hrange : 1 / num 10 <= App.wheelZoom pow deltaY zoom ∧
                   App.wheelZoom pow deltaY zoom <= num 20).
  { unfold App.wheelZoom. cbv zeta.
    generalize dependent (1 / num 10). generalize (num 20).
    generalize (zoom * pow (num 999 / num 1000) deltaY).
    intros z hi lo Horder.
    destruct (decide (hi < z)) as [Hhi|Hhi].
    - destruct (decide (hi < lo)) as [Hlo|Hlo]; [split; [apply Qcle_refl | done]|].
      split; [done | apply Qcle_refl].
    - apply Qcnot_lt_le in Hhi.
      destruct (decide (z < lo)) as [Hlo|Hlo]; [split; [apply Qcle_refl | done]|].
      apply Qcnot_lt_le in Hlo. done. }
  destruct Hrange as [Hlo Hhi]. split; [done|]. split; [done|].
  exists (Math_round (App.wheelZoom pow deltaY zoom * num 100)).
  split; [reflexivity|].
  set (z := App.wheelZoom pow deltaY zoom) in *.
  assert (Hscale : 0 <= num 100) by by_evaluation.
  assert (Hbelow : 1 / num 10 * num 100 + 1 / 2 <= z * num 100 + 1 / 2).
  { apply Qcplus_le_compat; [|apply Qcle_refl]. by apply Qcmult_le_compat_r. }
  assert (Habove : z * num 100 + 1 / 2 <= num 20 * num 100 + 1 / 2).
  { apply Qcplus_le_compat; [|apply Qcle_refl]. by apply Qcmult_le_compat_r. }
  unfold Math_round.
  apply Qfloor_resp_le in Hbelow. apply Qfloor_resp_le in Habove.
  assert (Hten : Qfloor (this (1 / num 10 * num 100 + 1 / 2)) = 10%Z)
    by (vm_compute; reflexivity).
  assert (Hmax : Qfloor (this (num 20 * num 100 + 1 / 2)) = 2000%Z)
    by (vm_compute; reflexivity).
  rewrite Hten in Hbelow. rewrite Hmax in Habove. done.
Qed.

(* ================================================================= *)
(** * Further properties of the order of a pass *)

(** X21.  A pass of a filter with relative coordinates is not atomic.
    [applyTo] first stores the bounds, sizes the canvas and moves the
    shared control points to the origin of the bounds, and only then calls
    the surface library, on the moved corners: when the library rejects
    them the pass throws its error, and the bounds and the moved control
    points stay behind. *)
Theorem X21_failed_pass_leaves_moved_points `{Runtime}
    (f f' : Perspective.t) (h : store) (o o1 : Options) (l : loc)
    (entries : list point) (b : Perspective.Bounds) (shader : program) (e : exn) :
  webgl o = true →
  Perspective.hasRelativeCoordinates f = true →
  Perspective.perspectiveCoords f = Some l →
  h !! l = Some entries →
  Perspective.getPerspectiveBounds None (f, h) = (Done b, (f', h)) →
  retrieveShader
    (_setupFrameBuffer (Perspective.resize (Perspective.width b) (Perspective.height b) o).2)
    = (Done shader, o1) →
  byCorners (translate (Perspective.minX b) (Perspective.minY b) entries) = Thrown e →
  Perspective.applyTo (f, h, o) =
    (Thrown e,
     (f', <[l := translate (Perspective.minX b) (Perspective.minY b) entries]> h, o1)) ∧
  Perspective.bounds f' = b.
Proof.
  intros Hwebgl Hrel Hl Hentries Hb Hshader Hreject.
  assert (Hderef : deref h (Perspective.perspectiveCoords f) = Some entries)
    by (by rewrite Hl).
  pose proof (getPerspectiveBounds_eq None f h entries Hderef) as Hb'. cbn zeta in Hb'.
  rewrite Hb in Hb'. injection Hb' as Hbounds Hf'.
  assert (Hstored : Perspective.bounds f' = b) by (by rewrite Hf', Hbounds).
  split; [|exact Hstored].
  assert (Hl' : Perspective.perspectiveCoords f' = Some l) by (by rewrite Hf').
  assert (Hrel' : Perspective.hasRelativeCoordinates f' = true) by (by rewrite Hf').
  unfold Perspective.applyTo.
  rewrite (bind_done _ _ (f, h, o) o (f, h, o)) by reflexivity.
  rewrite Hwebgl.
  rewrite (bind_done _ _ _ _ _ (onFilter_eq _ _ o _ _ Hb)).
  rewrite (bind_done _ _ _ tt
             (f', h, (Perspective.resize (Perspective.width b) (Perspective.height b) o).2))
    by reflexivity.
  rewrite (bind_done _ _ _ (f', h) _) by reflexivity.
  cbn [fst snd]. rewrite Hrel'.
  pose proof (calculateCoordsByCorners_eq f' h l entries Hl' Hentries) as Hcalc.
  rewrite Hstored in Hcalc.
  rewrite (bind_done _ _ _ _ _ (onFilter_eq _ _ _ _ _ Hcalc)).
  set (o0 := (Perspective.resize (Perspective.width b) (Perspective.height b) o).2) in *.
  set (h' := <[l := translate (Perspective.minX b) (Perspective.minY b) entries]> h).
  rewrite (bind_done _ _ _ tt (f', h', _setupFrameBuffer o0)) by reflexivity.
  apply bind_thrown.
  unfold Perspective.applyToWebGL.
  rewrite (bind_done _ _ _ _ _ (onOptions_eq _ (f', h') _ _ _ Hshader)).
  rewrite (bind_done _ _ (f', h', o1) o1 (f', h', o1)) by reflexivity.
  apply bind_thrown, onFilter_eq.
  unfold Perspective.generateSurface, deref. rewrite Hl'. cbn [mbind option_bind].
  subst h'. rewrite lookup_insert_eq. by rewrite Hreject.
Qed.

Lemma X21_witness :
  let f := exampleFilter true (Some 1%positive) in
  let h : store := {[ 1%positive := draggedQuad 1 ]} in
  let o := examplePipeline true in
  let b := Perspective.mkBounds (num 220) (num 110) 0 (num 220) (num (-10)) (num 100) in
  let moved := [(0, num 10); (num 220, 0); (num 200, num 110); (0, num 110)] in
  webgl o = true ∧
  Perspective.hasRelativeCoordinates f = true ∧
  Perspective.perspectiveCoords f = Some 1%positive ∧
  h !! 1%positive = Some (draggedQuad 1) ∧
  translate (Perspective.minX b) (Perspective.minY b) (draggedQuad 1) = moved ∧
  @Perspective.applyTo rejectingLibrary (f, h, o) =
    (Thrown (JsError "Error"),
     (Perspective.set_bounds b f,
      <[1%positive := translate (Perspective.minX b) (Perspective.minY b) (draggedQuad 1)]> h,
      (Perspective.resize (num 220) (num 110) o).2)) ∧
  Perspective.bounds (Perspective.set_bounds b f) = b.
Proof.
  cbv zeta. split; [reflexivity|]. split; [reflexivity|]. split; [reflexivity|].
  split; [reflexivity|]. split; [by_evaluation|].
  apply (@X21_failed_pass_leaves_moved_points rejectingLibrary
           (exampleFilter true (Some 1%positive)) _
           {[ 1%positive := draggedQuad 1 ]} (examplePipeline true) _ 1%positive
           (draggedQuad 1) _ 7%nat (JsError "Error"));
    try reflexivity.
  by_evaluation.
Defined.
